(** * XPaxos replication core: a shallow embedding of [xpaxos.go]

    The replica state, the crypto helpers and the three RPC handlers
    ([Replicate], [Prepare], [Commit]) of [src/xpaxos/xpaxos.go] are
    transcribed as functions over an explicit replica state.  A handler
    that releases the mutex in the middle of its body is cut at that
    point into the critical sections it really consists of, and a small
    labelled transition system interleaves those sections the way the Go
    scheduler may. *)

From Stdlib Require Import ZArith Lia List Bool.
From Stdlib Require Import Strings.Byte.
From stdpp Require Import base option list gmap fin_maps.

Local Open Scope Z_scope.

(** ** Machine integers

    Go's [int] is 64 bits wide on the platforms the repository targets;
    [x++] and [x + 1] wrap around silently. *)

Definition int_min : Z := - 2 ^ 63.
Definition int_max : Z := 2 ^ 63 - 1.

Definition int_wrap (z : Z) : Z := (z + 2 ^ 63) mod 2 ^ 64 - 2 ^ 63.

Definition int_add (a b : Z) : Z := int_wrap (a + b).

(** [len] of a slice or of a map, as an [int]. *)
Definition len {A} (l : list A) : Z := Z.of_nat (length l).
Definition map_len {A} (m : gmap Z A) : Z := Z.of_nat (size m).

(** ** Byte strings

    [bytes.Compare(a, b)]: lexicographic comparison, [-1], [0] or [1]. *)

Fixpoint bytes_Compare (a b : list byte) : Z :=
  match a, b with
  | [], [] => 0
  | [], _ :: _ => -1
  | _ :: _, [] => 1
  | x :: a', y :: b' =>
      match N.compare (Byte.to_N x) (Byte.to_N y) with
      | Lt => -1
      | Gt => 1
      | Eq => bytes_Compare a' b'
      end
  end.

(** ** What can go wrong

    A handler either returns, or the process dies: [log.Fatal] in
    [checkError], or a Go run-time panic. *)

Inductive fault : Type :=
  | FatalSignError        (* checkError(err) after rsa.SignPKCS1v15 *)
  | PanicNilPublicKey     (* nil *rsa.PublicKey dereferenced by rsa.VerifyPKCS1v15 *)
  | PanicIndexOutOfRange  (* xp.commitLog[i] with i outside the slice *)
  | PanicChanSize.        (* make(chan bool, n) with n < 0 *)

Inductive result (A : Type) : Type :=
  | Ok (a : A)
  | Abort (f : fault).
Arguments Ok {A} a.
Arguments Abort {A} f.

Definition bind {A B} (r : result A) (k : A → result B) : result B :=
  match r with
  | Ok a => k a
  | Abort f => Abort f
  end.

Notation "'do' x <- r ; k" := (bind r (fun x => k))
  (at level 10, x name, r at level 100, k at level 200).

Definition returns {A} (r : result A) : Prop := ∃ a, r = Ok a.

(** [s[i]] on a slice: a run-time panic outside [0 <= i < len(s)]. *)
Definition index {A} (s : list A) (i : Z) : result A :=
  if (i <? 0) || (len s <=? i) then Abort PanicIndexOutOfRange
  else match s !! Z.to_nat i with
       | Some a => Ok a
       | None => Abort PanicIndexOutOfRange
       end.

(** ** Messages and log entries *)

(** Modelled from the spec: the declaration of [ClientRequest] is not
    part of [xpaxos.go]; the core reads only its [Timestamp] and hashes
    the whole value, so the application payload is kept as opaque
    bytes. *)
Record ClientRequest : Type := mkClientRequest {
  Payload : list byte;
  Timestamp : Z
}.

(** Modelled from the spec: [ReplicateReply{isLeader, success}], declared
    next to [ClientRequest]. *)
Record ReplicateReply : Type := mkReplicateReply {
  IsLeader : bool;
  ReplicateSuccess : bool
}.

(** Modelled from the spec: index [0] is reserved for the client driver. *)
Definition CLIENT : Z := 0.

Definition REPLICATE : Z := 0.
Definition PREPARE : Z := 1.
Definition COMMIT : Z := 2.
Definition REPLY : Z := 3.

Record Message : Type := mkMessage {
  MsgType : Z;
  MsgDigest : list byte;      (* [32]byte *)
  Signature : list byte;
  PrepareSeqNum : Z;
  View : Z;
  ClientTimestamp : Z;
  ServerId : Z
}.

Module PrepareLogEntry.
Record t : Type := mk {
  Request : ClientRequest;
  Msg0 : Message
}.
End PrepareLogEntry.

Module CommitLogEntry.
Record t : Type := mk {
  Request : ClientRequest;
  Msg0 : gmap Z Message
}.
End CommitLogEntry.

Module PrepareReply.
Record t : Type := mk {
  MsgDigest : list byte;
  Signature : list byte;
  Success : bool
}.
(** [&PrepareReply{}] *)
Definition zero : t := mk [] [] false.
End PrepareReply.

Module CommitReply.
Record t : Type := mk {
  MsgDigest : list byte;
  Signature : list byte;
  Success : bool
}.
(** [&CommitReply{}] *)
Definition zero : t := mk [] [] false.
End CommitReply.

(** ** The crypto libraries

    [encoding/json], [crypto/sha256] and [crypto/rsa] are outside the
    repository; the handlers are written against this interface.
    PKCS#1 v1.5 signing is deterministic, so the [rand.Reader] argument
    of [rsa.SignPKCS1v15] does not show. *)

Class Crypto : Type := {
  PublicKey : Type;
  PrivateKey : Type;
  (** [&key.PublicKey] *)
  PublicOf : PrivateKey → PublicKey;
  json_Marshal : ClientRequest → list byte;
  sha256_Sum256 : list byte → list byte;
  (** [None]: the call returned [err != nil] *)
  rsa_SignPKCS1v15 : PrivateKey → list byte → option (list byte);
  (** [true]: the call returned [err == nil] *)
  rsa_VerifyPKCS1v15 : PublicKey → list byte → list byte → bool
}.

(** The one law of RSA signatures the protocol leans on: what a private
    key signs verifies under its public half. *)
Definition rsa_sound `{Crypto} : Prop :=
  ∀ (sk : PrivateKey) (d s : list byte),
    rsa_SignPKCS1v15 sk d = Some s →
    rsa_VerifyPKCS1v15 (PublicOf sk) d s = true.

(** ** Replica state

    [mu], [persister] and [replicas] carry no protocol state: the mutex
    shows as the atomicity of the critical sections below, the persister
    is a stub, and [replicas] is the transport. *)

Record XPaxos `{Crypto} : Type := mkXPaxos {
  synchronousGroup : gmap Z bool;
  id : Z;
  view : Z;
  prepareSeqNum : Z;
  executeSeqNum : Z;
  prepareLog : list PrepareLogEntry.t;
  commitLog : list CommitLogEntry.t;
  privateKey : PrivateKey;
  publicKeys : gmap Z PublicKey
}.

Section Handlers.
Context `{Crypto}.

Definition set_prepareSeqNum (xp : XPaxos) (n : Z) : XPaxos :=
  mkXPaxos _ (synchronousGroup xp) (id xp) (view xp) n (executeSeqNum xp)
    (prepareLog xp) (commitLog xp) (privateKey xp) (publicKeys xp).

Definition set_executeSeqNum (xp : XPaxos) (n : Z) : XPaxos :=
  mkXPaxos _ (synchronousGroup xp) (id xp) (view xp) (prepareSeqNum xp) n
    (prepareLog xp) (commitLog xp) (privateKey xp) (publicKeys xp).

Definition set_prepareLog (xp : XPaxos) (l : list PrepareLogEntry.t) : XPaxos :=
  mkXPaxos _ (synchronousGroup xp) (id xp) (view xp) (prepareSeqNum xp)
    (executeSeqNum xp) l (commitLog xp) (privateKey xp) (publicKeys xp).

Definition set_commitLog (xp : XPaxos) (l : list CommitLogEntry.t) : XPaxos :=
  mkXPaxos _ (synchronousGroup xp) (id xp) (view xp) (prepareSeqNum xp)
    (executeSeqNum xp) (prepareLog xp) l (privateKey xp) (publicKeys xp).

(** ** Helper functions *)

(** [digest]: the error of [json.Marshal] is dropped, the digest is
    total. *)
Definition digest (msg : ClientRequest) : list byte :=
  sha256_Sum256 (json_Marshal msg).

Definition sign (xp : XPaxos) (msgDigest : list byte) : result (list byte) :=
  match rsa_SignPKCS1v15 (privateKey xp) msgDigest with
  | Some signature => Ok signature
  | None => Abort FatalSignError
  end.

(** [xp.publicKeys[server]] is the nil pointer when [server] has no
    entry; [rsa.VerifyPKCS1v15] reads the modulus through it. *)
Definition verify (xp : XPaxos) (server : Z) (msgDigest signature : list byte)
  : result bool :=
  match publicKeys xp !! server with
  | None => Abort PanicNilPublicKey
  | Some pub => Ok (rsa_VerifyPKCS1v15 pub msgDigest signature)
  end.

Definition getState (xp : XPaxos) : Z * bool :=
  (view xp, bool_decide (id xp = view xp)).

(** ** Commit RPC

    One critical section.  [reply] is the reply structure the RPC layer
    hands in; the handler only ever writes to it. *)

(** [xp.commitLog[xp.executeSeqNum].Msg0[msg.ServerId] = msg], on the
    slot already read. *)
Definition certify (xp : XPaxos) (slot : CommitLogEntry.t) (msg : Message) : XPaxos :=
  set_commitLog xp
    (<[Z.to_nat (executeSeqNum xp) :=
         CommitLogEntry.mk (CommitLogEntry.Request slot)
           (<[ServerId msg := msg]> (CommitLogEntry.Msg0 slot))]> (commitLog xp)).

Definition Commit (xp : XPaxos) (msg : Message) (reply : CommitReply.t)
  : result (XPaxos * CommitReply.t) :=
  let msgDigest := MsgDigest msg in
  do signature <- sign xp msgDigest;
  let reply := CommitReply.mk msgDigest signature (CommitReply.Success reply) in
  do ok <- verify xp (ServerId msg) msgDigest (Signature msg);
  if ok then
    if executeSeqNum xp <? len (commitLog xp) then
      do slot <- index (commitLog xp) (executeSeqNum xp);
      Ok (certify xp slot msg, CommitReply.mk msgDigest signature true)
    else
      Ok (xp, CommitReply.mk msgDigest signature false)
  else
    Ok (xp, reply).

(** The three ways [Commit] returns. *)
Inductive Commit_case (xp : XPaxos) (msg : Message) (reply0 : CommitReply.t)
    (sig : list byte) : XPaxos → CommitReply.t → Prop :=
  | Commit_bad_signature :
      verify xp (ServerId msg) (MsgDigest msg) (Signature msg) = Ok false →
      Commit_case xp msg reply0 sig xp
        (CommitReply.mk (MsgDigest msg) sig (CommitReply.Success reply0))
  | Commit_no_slot :
      verify xp (ServerId msg) (MsgDigest msg) (Signature msg) = Ok true →
      len (commitLog xp) ≤ executeSeqNum xp →
      Commit_case xp msg reply0 sig xp (CommitReply.mk (MsgDigest msg) sig false)
  | Commit_stored slot :
      verify xp (ServerId msg) (MsgDigest msg) (Signature msg) = Ok true →
      0 ≤ executeSeqNum xp < len (commitLog xp) →
      commitLog xp !! Z.to_nat (executeSeqNum xp) = Some slot →
      Commit_case xp msg reply0 sig (certify xp slot msg)
        (CommitReply.mk (MsgDigest msg) sig true).

(** ** Replicate RPC

    The leader's body has two critical sections with the fan-out of
    [issuePrepare] and the wait on [replyCh] in between; a replica that
    is not the leader answers without taking the mutex. *)

(** The log updates of the leader, and the PREPARE entry built on the
    way. *)
Definition Replicate_log (xp : XPaxos) (request : ClientRequest)
    (msgDigest signature : list byte) : XPaxos * PrepareLogEntry.t :=
  let msg := mkMessage PREPARE msgDigest signature (prepareSeqNum xp)
               (view xp) (Timestamp request) (id xp) in
  let prepareEntry := PrepareLogEntry.mk request msg in
  let xp := set_prepareLog xp (prepareLog xp ++ [prepareEntry]) in
  let msgMap := <[id xp := msg]> (∅ : gmap Z Message) in
  let commitEntry := CommitLogEntry.mk request msgMap in
  (set_commitLog xp (commitLog xp ++ [commitEntry]), prepareEntry).

(** From entry to the first [xp.mu.Unlock()]: the entry to fan out, or
    [None] when the handler has already returned. *)
Definition Replicate_enter (xp : XPaxos) (request : ClientRequest)
    (reply : ReplicateReply)
  : result (XPaxos * ReplicateReply * option PrepareLogEntry.t) :=
  if bool_decide (id xp = view xp) then
    let reply := mkReplicateReply true (ReplicateSuccess reply) in
    let xp := set_prepareSeqNum xp (int_add (prepareSeqNum xp) 1) in
    let msgDigest := digest request in
    do signature <- sign xp msgDigest;
    let (xp, prepareEntry) := Replicate_log xp request msgDigest signature in
    if map_len (synchronousGroup xp) - 1 <? 0 then Abort PanicChanSize
    else Ok (xp, reply, Some prepareEntry)
  else
    Ok (xp, mkReplicateReply false false, None).

(** From the second [xp.mu.Lock()] to the return, once [replyCh] has
    delivered its tokens. *)
Definition Replicate_exit (xp : XPaxos) (reply : ReplicateReply)
  : XPaxos * ReplicateReply :=
  (set_executeSeqNum xp (int_add (executeSeqNum xp) 1),
   mkReplicateReply (IsLeader reply) true).

(** ** Prepare RPC *)

(** What [issuePrepare] and [issueCommit] do with a reply that the
    transport delivered. *)
Inductive issued : Type :=
  | Token      (* replyCh <- true *)
  | Reissue    (* go xp.issuePrepare(...) / go xp.issueCommit(...) again *)
  | Dropped.   (* nothing: this server will never be counted *)

Definition issuePrepare (xp : XPaxos) (server : Z)
    (prepareEntry : PrepareLogEntry.t) (reply : PrepareReply.t)
  : result issued :=
  if bytes_Compare (MsgDigest (PrepareLogEntry.Msg0 prepareEntry))
       (PrepareReply.MsgDigest reply) =? 0 then
    do ok <- verify xp server (PrepareReply.MsgDigest reply)
               (PrepareReply.Signature reply);
    if ok then
      if PrepareReply.Success reply then Ok Token else Ok Reissue
    else Ok Dropped
  else Ok Dropped.

(** The guard of [Prepare]; [&&] does not call [verify] unless the
    sequence number and the digest already match. *)
Definition Prepare_admits (xp : XPaxos) (prepareEntry : PrepareLogEntry.t)
    (msgDigest : list byte) : result bool :=
  let msg0 := PrepareLogEntry.Msg0 prepareEntry in
  if (PrepareSeqNum msg0 =? int_add (prepareSeqNum xp) 1)
     && (bytes_Compare (MsgDigest msg0) msgDigest =? 0)
  then verify xp (ServerId msg0) msgDigest (Signature msg0)
  else Ok false.

(** The log updates of an admitted entry, and the COMMIT message built
    on the way. *)
Definition Prepare_log (xp : XPaxos) (prepareEntry : PrepareLogEntry.t)
    (msgDigest signature : list byte) : XPaxos * Message :=
  let xp := set_prepareSeqNum xp (int_add (prepareSeqNum xp) 1) in
  let xp := set_prepareLog xp (prepareLog xp ++ [prepareEntry]) in
  let msg := mkMessage COMMIT msgDigest signature (prepareSeqNum xp)
               (view xp) (Timestamp (PrepareLogEntry.Request prepareEntry))
               (id xp) in
  if len (commitLog xp) <=? executeSeqNum xp then
    let msgMap :=
      <[id xp := msg]>
        (<[view xp := PrepareLogEntry.Msg0 prepareEntry]> (∅ : gmap Z Message)) in
    let commitEntry :=
      CommitLogEntry.mk (PrepareLogEntry.Request prepareEntry) msgMap in
    (set_commitLog xp (commitLog xp ++ [commitEntry]), msg)
  else (xp, msg).

(** From entry to the first [xp.mu.Unlock()], or to the return when the
    entry is rejected.  [Some msg]: accepted, [msg] is the COMMIT to fan
    out. *)
Definition Prepare_enter (xp : XPaxos) (prepareEntry : PrepareLogEntry.t)
    (reply : PrepareReply.t)
  : result (XPaxos * PrepareReply.t * option Message) :=
  let msgDigest := digest (PrepareLogEntry.Request prepareEntry) in
  do signature <- sign xp msgDigest;
  let reply := PrepareReply.mk msgDigest signature (PrepareReply.Success reply) in
  do ok <- Prepare_admits xp prepareEntry msgDigest;
  if ok then
    let (xp, msg) := Prepare_log xp prepareEntry msgDigest signature in
    if map_len (synchronousGroup xp) - 1 <? 0 then Abort PanicChanSize
    else Ok (xp, reply, Some msg)
  else
    Ok (xp, PrepareReply.mk msgDigest signature false, None).

(** One turn of the barrier loop, taken under the mutex after [replyCh]
    has delivered its tokens: [None] when the certificate of the slot at
    [executeSeqNum] is not yet of the size of the group (the handler
    unlocks, sleeps and comes back), the final state and reply
    otherwise. *)
Definition Prepare_exit (xp : XPaxos) (reply : PrepareReply.t)
  : result (option (XPaxos * PrepareReply.t)) :=
  do slot <- index (commitLog xp) (executeSeqNum xp);
  if negb (map_len (CommitLogEntry.Msg0 slot) =? map_len (synchronousGroup xp))
  then Ok None
  else Ok (Some (set_executeSeqNum xp (int_add (executeSeqNum xp) 1),
                 PrepareReply.mk (PrepareReply.MsgDigest reply)
                   (PrepareReply.Signature reply) true)).

Definition issueCommit (xp : XPaxos) (server : Z) (msg : Message)
    (reply : CommitReply.t) : result issued :=
  if bytes_Compare (MsgDigest msg) (CommitReply.MsgDigest reply) =? 0 then
    do ok <- verify xp server (CommitReply.MsgDigest reply)
               (CommitReply.Signature reply);
    if ok then
      if CommitReply.Success reply then Ok Token else Ok Reissue
    else Ok Dropped
  else Ok Dropped.

(** ** Make

    Only the length of [replicas] matters to the core: the loop ranges
    over its indices. *)
Definition Make (replicas : nat) (id : Z) (privateKey : PrivateKey)
    (publicKeys : gmap Z PublicKey) : XPaxos :=
  let group :=
    foldl (fun (g : gmap Z bool) (server : Z) =>
             if bool_decide (server ≠ CLIENT) then <[server := true]> g else g)
          ∅ (seqZ 0 (Z.of_nat replicas)) in
  mkXPaxos _ group id 1 0 0 [] [] privateKey publicKeys.

(** The critical sections a replica runs, as a relation on its state. *)
Inductive section_of (xp : XPaxos) : XPaxos → Prop :=
  | sec_idle : section_of xp xp
  | sec_Replicate_enter request reply0 xp' reply o :
      Replicate_enter xp request reply0 = Ok (xp', reply, o) →
      section_of xp xp'
  | sec_Replicate_exit reply :
      section_of xp (fst (Replicate_exit xp reply))
  | sec_Prepare_enter prepareEntry reply0 xp' reply o :
      Prepare_enter xp prepareEntry reply0 = Ok (xp', reply, o) →
      section_of xp xp'
  | sec_Prepare_exit reply xp' reply' :
      Prepare_exit xp reply = Ok (Some (xp', reply')) →
      section_of xp xp'
  | sec_Commit msg reply0 xp' reply :
      Commit xp msg reply0 = Ok (xp', reply) →
      section_of xp xp'.

End Handlers.

(** ** One replica under an arbitrary network

    The handlers of one replica run as concurrent tasks.  Between its two
    critical sections a [Replicate] or [Prepare] task owns a completion
    channel and one [issuePrepare] / [issueCommit] task per other member
    of the group; what those tasks receive is chosen by the network and
    by the other replicas. *)

Section Node.
Context `{Crypto}.

Inductive waiting : Type :=
  | InReplicate (prepareEntry : PrepareLogEntry.t) (reply : ReplicateReply)
  | InPrepare (msg : Message) (reply : PrepareReply.t).

Record call : Type := mkCall {
  task : waiting;
  (** servers whose [issue...] task is still alive *)
  pending : gset Z;
  (** tokens pushed to [replyCh] so far *)
  tokens : Z
}.

Record Node : Type := mkNode {
  replica : XPaxos;
  calls : list call
}.

Inductive event : Type :=
  | EvReplicate (request : ClientRequest)
  | EvPrepare (prepareEntry : PrepareLogEntry.t)
  | EvCommit (msg : Message)
  (** the transport answers task [c]'s call to [server]: [None] is
      [ok == false] *)
  | EvPrepareReply (c : nat) (server : Z) (reply : option PrepareReply.t)
  | EvCommitReply (c : nat) (server : Z) (reply : option CommitReply.t)
  (** task [c] has taken its [len(synchronousGroup) - 1] tokens from
      [replyCh] and takes the mutex again *)
  | EvResume (c : nat).

(** [for server := range xp.synchronousGroup { if server != xp.id ... }] *)
Definition others (xp : XPaxos) : gset Z :=
  dom (synchronousGroup xp) ∖ {[ id xp ]}.

Definition spawn (xp : XPaxos) (w : waiting) : call :=
  mkCall w (others xp) 0.

Definition settle (k : call) (server : Z) (i : issued) : call :=
  match i with
  | Token => mkCall (task k) (pending k ∖ {[ server ]}) (tokens k + 1)
  | Reissue => k
  | Dropped => mkCall (task k) (pending k ∖ {[ server ]}) (tokens k)
  end.

(** [None]: the event cannot happen in this state.  [Some (Abort f)]: it
    happens and kills the process. *)
Definition step (n : Node) (e : event) : option (result Node) :=
  let xp := replica n in
  match e with
  | EvReplicate request =>
      Some (do r <- Replicate_enter xp request (mkReplicateReply false false);
            match r with
            | (xp', reply, Some prepareEntry) =>
                Ok (mkNode xp' (calls n ++ [spawn xp' (InReplicate prepareEntry reply)]))
            | (xp', _, None) => Ok (mkNode xp' (calls n))
            end)
  | EvPrepare prepareEntry =>
      Some (do r <- Prepare_enter xp prepareEntry PrepareReply.zero;
            match r with
            | (xp', reply, Some msg) =>
                Ok (mkNode xp' (calls n ++ [spawn xp' (InPrepare msg reply)]))
            | (xp', _, None) => Ok (mkNode xp' (calls n))
            end)
  | EvCommit msg =>
      Some (do r <- Commit xp msg CommitReply.zero;
            Ok (mkNode (fst r) (calls n)))
  | EvPrepareReply c server reply =>
      match calls n !! c with
      | Some (mkCall (InReplicate prepareEntry _) p _ as k) =>
          if bool_decide (server ∈ p) then
            Some (do i <- match reply with
                          | Some reply => issuePrepare xp server prepareEntry reply
                          | None => Ok Dropped
                          end;
                  Ok (mkNode xp (<[c := settle k server i]> (calls n))))
          else None
      | _ => None
      end
  | EvCommitReply c server reply =>
      match calls n !! c with
      | Some (mkCall (InPrepare msg _) p _ as k) =>
          if bool_decide (server ∈ p) then
            Some (do i <- match reply with
                          | Some reply => issueCommit xp server msg reply
                          | None => Ok Dropped
                          end;
                  Ok (mkNode xp (<[c := settle k server i]> (calls n))))
          else None
      | _ => None
      end
  | EvResume c =>
      match calls n !! c with
      | Some k =>
          if map_len (synchronousGroup xp) - 1 <=? tokens k then
            match task k with
            | InReplicate _ reply =>
                Some (Ok (mkNode (fst (Replicate_exit xp reply)) (delete c (calls n))))
            | InPrepare _ reply =>
                Some (do r <- Prepare_exit xp reply;
                      match r with
                      | Some (xp', _) => Ok (mkNode xp' (delete c (calls n)))
                      | None => Ok n
                      end)
            end
          else None
      | None => None
      end
  end.

Fixpoint run (n : Node) (es : list event) : option (result Node) :=
  match es with
  | [] => Some (Ok n)
  | e :: es' =>
      match step n e with
      | Some (Ok n') => run n' es'
      | other => other
      end
  end.

(** The node a run ends in ([n] itself when the run does not go
    through). *)
Definition after (n : Node) (es : list event) : Node :=
  match run n es with
  | Some (Ok n') => n'
  | _ => n
  end.

Inductive reachable (n0 : Node) : Node → Prop :=
  | reach_init : reachable n0 n0
  | reach_step n e n' :
      reachable n0 n → step n e = Some (Ok n') → reachable n0 n'.

(** A freshly made replica with no handler running. *)
Definition boot (replicas : nat) (id : Z) (privateKey : PrivateKey)
    (publicKeys : gmap Z PublicKey) : Node :=
  mkNode (Make replicas id privateKey publicKeys) [].

End Node.

(** ** Invariants of the replica state *)

Section Invariants.
Context `{Crypto}.

(** Dense numbering of the prepare log. *)
Definition dense (xp : XPaxos) : Prop :=
  prepareSeqNum xp = len (prepareLog xp)
  ∧ ∀ (k : nat) e, prepareLog xp !! k = Some e →
      PrepareSeqNum (PrepareLogEntry.Msg0 e) = Z.of_nat k + 1.




(** How the lengths of the two logs move, handler by handler. *)
Definition lengths_kept (xp xp' : XPaxos) : Prop :=
  length (prepareLog xp') = length (prepareLog xp)
  ∧ length (commitLog xp') = length (commitLog xp).

Definition lengths_both (xp xp' : XPaxos) : Prop :=
  length (prepareLog xp') = S (length (prepareLog xp))
  ∧ length (commitLog xp') = S (length (commitLog xp)).

Definition lengths_prepare_only (xp xp' : XPaxos) : Prop :=
  length (prepareLog xp') = S (length (prepareLog xp))
  ∧ length (commitLog xp') = length (commitLog xp)
  ∧ executeSeqNum xp < len (commitLog xp).

End Invariants.

(** ** A stand-in for the crypto libraries

    Enough of a signature scheme to run the handlers on concrete inputs:
    a key is one byte, both halves alike; a signature is the digest with
    the key in front.  It is used for concrete runs only, never in a
    general statement. *)

Module Toy.

Definition crypto : Crypto := {|
  PublicKey := byte;
  PrivateKey := byte;
  PublicOf := fun k => k;
  json_Marshal := fun r => Payload r;
  sha256_Sum256 := fun bs => bs;
  rsa_SignPKCS1v15 := fun k d => Some (k :: d);
  rsa_VerifyPKCS1v15 := fun k d s => bytes_Compare s (k :: d) =? 0
|}.

(** The directory of the test harness: one key per index. *)
Definition keys : gmap Z byte :=
  <[0 := x00]> (<[1 := x01]> (<[2 := x02]> (<[3 := x03]> ∅))).

Definition reqA : ClientRequest := mkClientRequest [x61] 1.
Definition reqB : ClientRequest := mkClientRequest [x62] 2.

(** Replica [i] of a system of [n] indices, as [Make] leaves it. *)
Definition replica_of (n : nat) (i : Z) (k : byte) : @XPaxos crypto :=
  @Make crypto n i k keys.

(** A PREPARE as leader [1] sends it, and a COMMIT as follower [i]
    sends it. *)
Definition prepare_of (r : ClientRequest) (seq : Z) : PrepareLogEntry.t :=
  PrepareLogEntry.mk r
    (mkMessage PREPARE (Payload r) (x01 :: Payload r) seq 1 (Timestamp r) 1).

Definition commit_of (r : ClientRequest) (seq : Z) (i : Z) (k : byte) : Message :=
  mkMessage COMMIT (Payload r) (k :: Payload r) seq 1 (Timestamp r) i.

Definition ack_of (r : ClientRequest) (k : byte) : PrepareReply.t :=
  PrepareReply.mk (Payload r) (k :: Payload r) true.

(** Leader [1] with the single follower [2] (indices [0..2]). *)
Definition leader : @Node crypto := @boot crypto 3 1 x01 keys.

(** Two client requests in flight at once.  Follower [2] handles [reqA]
    to the end (its COMMIT reaches the leader, then its positive reply
    to the PREPARE), the second [Replicate] starts before the first has
    taken the mutex again, and follower [2] handles [reqB] likewise:
    its COMMIT lands in the slot at the leader's [executeSeqNum], which
    is still slot [0]. *)
Definition pipelined : list event :=
  [ EvReplicate reqA;
    EvCommit (commit_of reqA 1 2 x02);
    EvPrepareReply 0 2 (Some (ack_of reqA x02));
    EvReplicate reqB;
    EvCommit (commit_of reqB 2 2 x02);
    EvPrepareReply 1 2 (Some (ack_of reqB x02));
    EvResume 0;
    EvResume 0 ].

(** Follower [2] of leader [1] among indices [0..3], before and after
    it has taken in the PREPARE of [reqA]. *)
Definition follower : @Node crypto := @boot crypto 4 2 x02 keys.
Definition follower_prepared : @Node crypto :=
  @after crypto follower [EvPrepare (prepare_of reqA 1)].
Definition follower_committed : @Node crypto :=
  @after crypto follower
    [EvPrepare (prepare_of reqA 1); EvCommit (commit_of reqA 1 3 x03)].


(** The same follower, reached by a COMMIT that index [0] signed (the
    client's index, outside the group) and by the positive replies of
    [1] and [3] to its own COMMIT. *)
Definition commit_ack_of (r : ClientRequest) (k : byte) : CommitReply.t :=
  CommitReply.mk (Payload r) (k :: Payload r) true.

Definition outsider : list event :=
  [ EvPrepare (prepare_of reqA 1);
    EvCommit (commit_of reqA 1 0 x00);
    EvCommitReply 0 1 (Some (commit_ack_of reqA x01));
    EvCommitReply 0 3 (Some (commit_ack_of reqA x03));
    EvResume 0 ].


(** Further concrete states.  A leader that is alone in its group
    (indices [0..1]), the follower of a group of two (indices [0..2]),
    and messages with fields that the handlers never read set to
    arbitrary values. *)
Definition lone_leader : @Node crypto := @boot crypto 2 1 x01 keys.

Definition pair_follower : @Node crypto := @boot crypto 3 2 x02 keys.
Definition pair_follower_prepared : @Node crypto :=
  @after crypto pair_follower [EvPrepare (prepare_of reqA 1)].

Definition leader_prepared : @Node crypto :=
  @after crypto leader [EvReplicate reqA].
Definition leader_acked : @Node crypto :=
  @after crypto leader (take 3 pipelined).

Definition disguised_commit : Message :=
  mkMessage PREPARE [x61] [x03; x61] 99 7 0 3.

Definition follower_committed_twice : @Node crypto :=
  @after crypto follower
    [EvPrepare (prepare_of reqA 1); EvCommit (commit_of reqA 1 3 x03);
     EvCommit (commit_of reqA 1 1 x01)].

(** The follower of a group of two takes in the PREPARE of [reqB] while
    its handler for [reqA] is still waiting; the leader acknowledges
    both COMMITs; the handler for [reqA] passes the barrier. *)
Definition second_in_flight : list event :=
  [ EvPrepare (prepare_of reqB 2);
    EvCommitReply 0 1 (Some (commit_ack_of reqA x01));
    EvCommitReply 1 1 (Some (commit_ack_of reqB x01));
    EvResume 0 ].

Definition follower_overwritten : @Node crypto :=
  @after crypto follower
    [EvPrepare (prepare_of reqA 1); EvCommit (commit_of reqB 2 3 x03)].

End Toy.

(** Closes the rows of an outcome table once the outcome is known. *)
Ltac outcome_rows :=
  repeat match goal with
         | |- _ ∧ _ => split
         | |- _ ↔ _ => split
         end;
  try (intuition (first [congruence|discriminate]));
  try (intros Hn; exfalso; apply Hn; eexists; reflexivity);
  try (intros _ [a Ha]; discriminate);
  try (intros [_ Hk]; exfalso; unfold verify in *; rewrite Hk in *; discriminate).

(** * Properties *)

(** ** Integers and bytes *)

Lemma int_wrap_small z : int_min ≤ z ≤ int_max → int_wrap z = z.
Proof.
  unfold int_min, int_max, int_wrap. intros Hz.
  rewrite Z.mod_small; lia.
Qed.

Lemma int_add_small a b : int_min ≤ a + b ≤ int_max → int_add a b = a + b.
Proof. apply int_wrap_small. Qed.

Lemma byte_to_N_inj x y : Byte.to_N x = Byte.to_N y → x = y.
Proof.
  intros E. pose proof (Byte.of_to_N x) as Hx.
  rewrite E, Byte.of_to_N in Hx. congruence.
Qed.

Lemma bytes_Compare_refl a : bytes_Compare a a = 0.
Proof.
  induction a as [|x a IH]; simpl; [reflexivity|].
  rewrite N.compare_refl. exact IH.
Qed.

Lemma bytes_Compare_eq a b : bytes_Compare a b = 0 ↔ a = b.
Proof.
  split; [|intros ->; apply bytes_Compare_refl].
  revert b. induction a as [|x a IH]; intros [|y b]; simpl; try discriminate.
  - reflexivity.
  - destruct (N.compare_spec (Byte.to_N x) (Byte.to_N y)) as [E| |];
      try discriminate.
    intros Hc. apply byte_to_N_inj in E. rewrite (IH b Hc), E. reflexivity.
Qed.

Lemma bytes_Compare_eqb a b : (bytes_Compare a b =? 0) = true ↔ a = b.
Proof. rewrite Z.eqb_eq. apply bytes_Compare_eq. Qed.

Lemma Toy_sound : @rsa_sound Toy.crypto.
Proof.
  intros sk d s Hs. simpl in *. injection Hs as <-.
  apply bytes_Compare_eqb. reflexivity.
Qed.

(** ** Slices *)

Lemma index_Ok {A} (s : list A) i a :
  index s i = Ok a ↔ 0 ≤ i ∧ s !! Z.to_nat i = Some a.
Proof.
  unfold index, len. split.
  - destruct (i <? 0) eqn:E1; simpl; [discriminate|].
    destruct (Z.of_nat (length s) <=? i) eqn:E2; [discriminate|].
    destruct (s !! Z.to_nat i) eqn:E3; [|discriminate].
    intros [= ->]. split; [lia|reflexivity].
  - intros [Hi Hs]. pose proof (lookup_lt_Some _ _ _ Hs) as Hlt.
    destruct (i <? 0) eqn:E1; [lia|]. simpl.
    destruct (Z.of_nat (length s) <=? i) eqn:E2; [lia|].
    rewrite Hs. reflexivity.
Qed.

Lemma index_in_range {A} (s : list A) i :
  0 ≤ i < len s → ∃ a, index s i = Ok a ∧ s !! Z.to_nat i = Some a.
Proof.
  unfold len. intros Hi.
  destruct (lookup_lt_is_Some_2 s (Z.to_nat i)) as [a Ha]; [lia|].
  exists a. split; [|exact Ha]. apply index_Ok. split; [lia|exact Ha].
Qed.

(** ** Crypto helpers *)

Section CryptoFacts.
Context `{Crypto}.

Lemma sign_Ok (xp : XPaxos) d s :
  sign xp d = Ok s ↔ rsa_SignPKCS1v15 (privateKey xp) d = Some s.
Proof.
  unfold sign. destruct (rsa_SignPKCS1v15 _ _); split; congruence.
Qed.

Lemma verify_Ok_true (xp : XPaxos) server d s :
  verify xp server d s = Ok true ↔
  ∃ pub, publicKeys xp !! server = Some pub ∧ rsa_VerifyPKCS1v15 pub d s = true.
Proof.
  unfold verify. destruct (publicKeys xp !! server) as [pub|]; split.
  - intros [= E]. eauto.
  - intros (pub' & [= <-] & E). rewrite E. reflexivity.
  - discriminate.
  - intros (pub' & E & _). discriminate.
Qed.


(** A signature made with a private key verifies wherever the public
    half is registered under the signer's id. *)
Lemma signed_verifies (xp xp' : XPaxos) d sig :
  rsa_sound →
  publicKeys xp' !! id xp = Some (PublicOf (privateKey xp)) →
  sign xp d = Ok sig →
  verify xp' (id xp) d sig = Ok true.
Proof.
  intros Hsound Hkey Hsig. apply verify_Ok_true.
  exists (PublicOf (privateKey xp)). split; [exact Hkey|].
  apply Hsound. apply sign_Ok. exact Hsig.
Qed.

(** C7.  A replica's signature over the digest of a client request
    verifies under that replica's id, in every directory that registers
    the public half of its private key.  RSA itself is taken as sound
    ([rsa_sound]); the statement is about what [sign] and [verify] add
    around it: the key lookup and the turning of errors into [false]. *)
Theorem sign_verify_roundtrip (xp xp' : XPaxos) (req : ClientRequest) sig :
  rsa_sound →
  publicKeys xp' !! id xp = Some (PublicOf (privateKey xp)) →
  sign xp (digest req) = Ok sig →
  verify xp' (id xp) (digest req) sig = Ok true.
Proof. intros Hsound Hkey Hsig. eapply signed_verifies; eauto. Qed.

(** C9, as the code has it.  [verify] answers with a boolean exactly for
    the ids the directory knows, and then the boolean is [true] iff the
    RSA check reports no error; for an id without an entry the nil key
    reaches [rsa.VerifyPKCS1v15] and the call faults. *)
Theorem verify_total_on_directory (xp : XPaxos) server d s :
  match publicKeys xp !! server with
  | Some pub => verify xp server d s = Ok (rsa_VerifyPKCS1v15 pub d s)
  | None => verify xp server d s = Abort PanicNilPublicKey
  end.
Proof. unfold verify. destruct (publicKeys xp !! server); reflexivity. Qed.

End CryptoFacts.

Lemma sign_verify_roundtrip_witness :
  @verify Toy.crypto (Toy.replica_of 4 2 x02) 1 [x61] [x01; x61] = Ok true.
Proof.
  apply (@sign_verify_roundtrip Toy.crypto (Toy.replica_of 4 1 x01)
           (Toy.replica_of 4 2 x02) Toy.reqA [x01; x61] Toy_sound);
    reflexivity.
Defined.

(** C9 as it is stated fails: an id that the directory does not hold
    makes [verify] fault instead of answering [false]. *)
Lemma verify_unregistered_faults :
  ¬ returns (@verify Toy.crypto (Toy.replica_of 4 1 x01) 7 [x61] [x07; x61]).
Proof. intros [b Hb]. vm_compute in Hb. discriminate. Qed.

(** ** The Commit handler *)

Section CommitFacts.
Context `{Crypto}.

Lemma Commit_inv (xp : XPaxos) msg reply0 xp' reply :
  Commit xp msg reply0 = Ok (xp', reply) →
  ∃ sig, sign xp (MsgDigest msg) = Ok sig ∧ Commit_case xp msg reply0 sig xp' reply.
Proof.
  unfold Commit. destruct (sign xp (MsgDigest msg)) as [sig|] eqn:Hsig;
    simpl; [|discriminate].
  destruct (verify xp (ServerId msg) (MsgDigest msg) (Signature msg))
    as [[|]|] eqn:Hv; simpl; [| |discriminate].
  - destruct (executeSeqNum xp <? len (commitLog xp)) eqn:Hlt.
    + destruct (index (commitLog xp) (executeSeqNum xp)) as [slot|] eqn:Hi;
        simpl; [|discriminate].
      apply index_Ok in Hi as [H0 Hs]. intros [= <- <-].
      exists sig. split; [reflexivity|]. apply Commit_stored; auto. lia.
    + intros [= <- <-]. exists sig. split; [reflexivity|].
      apply Commit_no_slot; auto. lia.
  - intros [= <- <-]. exists sig. split; [reflexivity|].
    apply Commit_bad_signature; auto.
Qed.

Lemma Commit_intro (xp : XPaxos) msg reply0 sig xp' reply :
  sign xp (MsgDigest msg) = Ok sig →
  Commit_case xp msg reply0 sig xp' reply →
  Commit xp msg reply0 = Ok (xp', reply).
Proof.
  intros Hsig Hc. unfold Commit. rewrite Hsig. simpl.
  destruct Hc as [Hv|Hv Hle|slot Hv Hr Hs]; rewrite Hv; simpl.
  - reflexivity.
  - destruct (executeSeqNum xp <? len (commitLog xp)) eqn:E; [lia|reflexivity].
  - destruct (executeSeqNum xp <? len (commitLog xp)) eqn:E; [|lia].
    assert (index (commitLog xp) (executeSeqNum xp) = Ok slot) as ->.
    { apply index_Ok. split; [lia|exact Hs]. }
    reflexivity.
Qed.

(** C3.  On a replica that can sign and whose execution frontier is not
    negative, [Commit] answers [Success = true] iff the signature of the
    message verifies under [msg.ServerId] and [executeSeqNum] is below
    [len(commitLog)]; a successful call changes nothing but the
    certificate of the slot at [executeSeqNum], where it stores [msg]
    under [msg.ServerId] (the state it leaves is written out field by
    field: the slot is the one at the frontier, whatever
    [msg.PrepareSeqNum] says); a call that returns without success
    leaves the state as it was; and the handler returns whenever the
    directory knows [msg.ServerId]. *)
Theorem Commit_success_iff (xp : XPaxos) (msg : Message) sig :
  sign xp (MsgDigest msg) = Ok sig →
  0 ≤ executeSeqNum xp →
  ((∃ xp' reply, Commit xp msg CommitReply.zero = Ok (xp', reply)
                 ∧ CommitReply.Success reply = true)
   ↔ verify xp (ServerId msg) (MsgDigest msg) (Signature msg) = Ok true
     ∧ executeSeqNum xp < len (commitLog xp))
  ∧ (∀ xp' reply, Commit xp msg CommitReply.zero = Ok (xp', reply) →
       if CommitReply.Success reply
       then ∃ slot,
              commitLog xp !! Z.to_nat (executeSeqNum xp) = Some slot
              ∧ xp' = mkXPaxos _ (synchronousGroup xp) (id xp) (view xp)
                        (prepareSeqNum xp) (executeSeqNum xp) (prepareLog xp)
                        (<[Z.to_nat (executeSeqNum xp) :=
                             CommitLogEntry.mk (CommitLogEntry.Request slot)
                               (<[ServerId msg := msg]>
                                  (CommitLogEntry.Msg0 slot))]> (commitLog xp))
                        (privateKey xp) (publicKeys xp)
       else xp' = xp)
  ∧ (is_Some (publicKeys xp !! ServerId msg) →
       returns (Commit xp msg CommitReply.zero)).
Proof.
  intros Hsig Hexec. split; [split|split].
  - intros (xp' & reply & Hc & Hs). apply Commit_inv in Hc as (sig' & _ & Hc).
    destruct Hc; simpl in Hs; try discriminate. split; [assumption|lia].
  - intros [Hv Hlt].
    destruct (index_in_range (commitLog xp) (executeSeqNum xp)) as (slot & _ & Hs);
      [lia|].
    exists (certify xp slot msg), (CommitReply.mk (MsgDigest msg) sig true).
    split; [|reflexivity].
    apply Commit_intro with (sig := sig); [exact Hsig|].
    apply Commit_stored; auto; lia.
  - intros xp' reply Hc. apply Commit_inv in Hc as (sig' & _ & Hc).
    destruct Hc as [Hv|Hv Hle|slot Hv Hr Hs]; simpl; [reflexivity|reflexivity|].
    exists slot. split; [exact Hs|reflexivity].
  - intros [pub Hpub]. unfold returns.
    destruct (rsa_VerifyPKCS1v15 pub (MsgDigest msg) (Signature msg)) eqn:Hb.
    + assert (verify xp (ServerId msg) (MsgDigest msg) (Signature msg) = Ok true)
        as Hv by (unfold verify; rewrite Hpub, Hb; reflexivity).
      destruct (Z_lt_le_dec (executeSeqNum xp) (len (commitLog xp))) as [Hlt|Hle].
      * destruct (index_in_range (commitLog xp) (executeSeqNum xp))
          as (slot & _ & Hs); [lia|].
        eexists. apply Commit_intro with (sig := sig); [exact Hsig|].
        apply Commit_stored with (slot := slot); auto.
      * eexists. apply Commit_intro with (sig := sig); [exact Hsig|].
        apply Commit_no_slot; auto.
    + assert (verify xp (ServerId msg) (MsgDigest msg) (Signature msg) = Ok false)
        as Hv by (unfold verify; rewrite Hpub, Hb; reflexivity).
      eexists. apply Commit_intro with (sig := sig); [exact Hsig|].
      apply Commit_bad_signature; auto.
Qed.

(** C10.  Whatever the message, a [Commit] that returns has left [id],
    [view], [prepareSeqNum], [executeSeqNum], [prepareLog] and
    [synchronousGroup] alone; [commitLog] keeps its length, every slot
    but the one at [executeSeqNum] is untouched, and that slot keeps its
    request: at most its certificate differs. *)
Theorem Commit_frame (xp : XPaxos) (msg : Message) reply0 xp' reply :
  Commit xp msg reply0 = Ok (xp', reply) →
  id xp' = id xp ∧ view xp' = view xp
  ∧ prepareSeqNum xp' = prepareSeqNum xp
  ∧ executeSeqNum xp' = executeSeqNum xp
  ∧ prepareLog xp' = prepareLog xp
  ∧ synchronousGroup xp' = synchronousGroup xp
  ∧ length (commitLog xp') = length (commitLog xp)
  ∧ (∀ i, i ≠ Z.to_nat (executeSeqNum xp) →
          commitLog xp' !! i = commitLog xp !! i)
  ∧ (∀ i, CommitLogEntry.Request <$> commitLog xp' !! i
          = CommitLogEntry.Request <$> commitLog xp !! i).
Proof.
  intros Hc. apply Commit_inv in Hc as (sig & _ & Hc).
  destruct Hc as [Hv|Hv Hle|slot Hv Hr Hs]; try (repeat split; reflexivity).
  unfold certify. simpl. repeat split.
  - apply length_insert.
  - intros i Hi. apply list_lookup_insert_ne. congruence.
  - intros i. destruct (decide (i = Z.to_nat (executeSeqNum xp))) as [->|Hne].
    + rewrite list_lookup_insert_eq by (eapply lookup_lt_Some; eauto).
      rewrite Hs. reflexivity.
    + rewrite list_lookup_insert_ne by congruence. reflexivity.
Qed.

(** C8.  A message that [Commit] accepts is accepted again when it is
    delivered a second time: same reply, [Success = true] both times, and
    the second certificate write puts back what is already there, so the
    state after two deliveries is the state after one. *)
Theorem Commit_duplicate (xp : XPaxos) (msg : Message) xp1 reply1 :
  Commit xp msg CommitReply.zero = Ok (xp1, reply1) →
  CommitReply.Success reply1 = true →
  Commit xp1 msg CommitReply.zero = Ok (xp1, reply1)
  ∧ (∃ slot1, commitLog xp1 !! Z.to_nat (executeSeqNum xp1) = Some slot1
              ∧ CommitLogEntry.Msg0 slot1 !! ServerId msg = Some msg
              ∧ certify xp1 slot1 msg = xp1).
Proof.
  intros Hc Hs. apply Commit_inv in Hc as (sig & Hsig & Hc).
  destruct Hc as [Hv|Hv Hle|slot Hv Hr Hslot]; simpl in Hs; try discriminate.
  set (slot1 := CommitLogEntry.mk (CommitLogEntry.Request slot)
                  (<[ServerId msg := msg]> (CommitLogEntry.Msg0 slot))).
  assert (Hlt : (Z.to_nat (executeSeqNum xp) < length (commitLog xp))%nat)
    by (eapply lookup_lt_Some; eauto).
  assert (Hl1 : commitLog (certify xp slot msg) !! Z.to_nat (executeSeqNum xp)
                = Some slot1).
  { unfold certify. simpl. apply list_lookup_insert_eq. exact Hlt. }
  assert (Hid : certify (certify xp slot msg) slot1 msg = certify xp slot msg).
  { unfold certify, slot1. simpl. unfold set_commitLog. simpl. f_equal.
    rewrite list_insert_insert_eq. rewrite insert_insert_eq. reflexivity. }
  split.
  - apply Commit_intro with (sig := sig); [exact Hsig|].
    rewrite <- Hid at 2. apply Commit_stored.
    + exact Hv.
    + unfold certify, len. simpl. rewrite length_insert. exact Hr.
    + exact Hl1.
  - exists slot1. split; [exact Hl1|]. split; [|exact Hid].
    unfold slot1. simpl. apply lookup_insert_eq.
Qed.

End CommitFacts.

(** ** The Replicate and Prepare handlers *)

Section HandlerFacts.
Context `{Crypto}.

Lemma Replicate_enter_inv (xp : XPaxos) request reply0 xp' reply o :
  Replicate_enter xp request reply0 = Ok (xp', reply, o) →
  (id xp ≠ view xp ∧ xp' = xp ∧ reply = mkReplicateReply false false ∧ o = None)
  ∨ (id xp = view xp
     ∧ ∃ sig prepareEntry,
         sign xp (digest request) = Ok sig
         ∧ Replicate_log (set_prepareSeqNum xp (int_add (prepareSeqNum xp) 1))
             request (digest request) sig = (xp', prepareEntry)
         ∧ 0 < map_len (synchronousGroup xp)
         ∧ reply = mkReplicateReply true (ReplicateSuccess reply0)
         ∧ o = Some prepareEntry).
Proof.
  unfold Replicate_enter. case_bool_decide as Hid.
  - change (sign (set_prepareSeqNum xp (int_add (prepareSeqNum xp) 1)) (digest request))
      with (sign xp (digest request)).
    destruct (sign xp (digest request)) as [sig|] eqn:Hsig; cbn [bind]; [|discriminate].
    destruct (Replicate_log (set_prepareSeqNum xp (int_add (prepareSeqNum xp) 1))
                request (digest request) sig) as [xp1 e] eqn:Hlog.
    assert (synchronousGroup xp1 = synchronousGroup xp) as ->.
    { unfold Replicate_log in Hlog. injection Hlog as <- _. reflexivity. }
    destruct (map_len (synchronousGroup xp) - 1 <? 0) eqn:Hn; [discriminate|].
    intros [= <- <- <-]. right. split; [exact Hid|].
    exists sig, e. repeat split; auto. lia.
  - intros [= <- <- <-]. left. auto.
Qed.

(** C4.  On a replica that is not the leader, [Replicate] answers
    [{IsLeader: false, Success: false}] whatever the request, starts no
    fan-out and returns the replica state it was given, field for
    field. *)
Theorem Replicate_not_leader (xp : XPaxos) (request : ClientRequest) reply0 :
  id xp ≠ view xp →
  Replicate_enter xp request reply0 = Ok (xp, mkReplicateReply false false, None).
Proof.
  intros Hid. unfold Replicate_enter. case_bool_decide; [contradiction|reflexivity].
Qed.

Lemma Prepare_admits_true (xp : XPaxos) prepareEntry d :
  Prepare_admits xp prepareEntry d = Ok true ↔
  PrepareSeqNum (PrepareLogEntry.Msg0 prepareEntry) = int_add (prepareSeqNum xp) 1
  ∧ MsgDigest (PrepareLogEntry.Msg0 prepareEntry) = d
  ∧ verify xp (ServerId (PrepareLogEntry.Msg0 prepareEntry)) d
      (Signature (PrepareLogEntry.Msg0 prepareEntry)) = Ok true.
Proof.
  unfold Prepare_admits.
  destruct (PrepareSeqNum _ =? _) eqn:E1; simpl.
  - apply Z.eqb_eq in E1.
    destruct (bytes_Compare _ d =? 0) eqn:E2.
    + apply bytes_Compare_eqb in E2. tauto.
    + split; [discriminate|]. intros (_ & E & _).
      apply bytes_Compare_eqb in E. congruence.
  - apply Z.eqb_neq in E1. split; [discriminate|]. tauto.
Qed.

Lemma Prepare_log_fields (xp : XPaxos) prepareEntry d sig xp' msg :
  Prepare_log xp prepareEntry d sig = (xp', msg) →
  prepareLog xp' = prepareLog xp ++ [prepareEntry]
  ∧ prepareSeqNum xp' = int_add (prepareSeqNum xp) 1
  ∧ executeSeqNum xp' = executeSeqNum xp
  ∧ synchronousGroup xp' = synchronousGroup xp
  ∧ id xp' = id xp ∧ view xp' = view xp
  ∧ privateKey xp' = privateKey xp ∧ publicKeys xp' = publicKeys xp
  ∧ msg = mkMessage COMMIT d sig (int_add (prepareSeqNum xp) 1) (view xp)
            (Timestamp (PrepareLogEntry.Request prepareEntry)) (id xp)
  ∧ commitLog xp' =
      if len (commitLog xp) <=? executeSeqNum xp
      then commitLog xp ++
             [CommitLogEntry.mk (PrepareLogEntry.Request prepareEntry)
                (<[id xp := msg]>
                   (<[view xp := PrepareLogEntry.Msg0 prepareEntry]> ∅))]
      else commitLog xp.
Proof.
  unfold Prepare_log. simpl.
  destruct (len (commitLog xp) <=? executeSeqNum xp);
    intros [= <- <-]; simpl; repeat split; reflexivity.
Qed.

Lemma Prepare_enter_inv (xp : XPaxos) prepareEntry reply0 xp' reply o :
  let d := digest (PrepareLogEntry.Request prepareEntry) in
  Prepare_enter xp prepareEntry reply0 = Ok (xp', reply, o) →
  ∃ sig, sign xp d = Ok sig
    ∧ ((Prepare_admits xp prepareEntry d = Ok false
        ∧ xp' = xp ∧ reply = PrepareReply.mk d sig false ∧ o = None)
       ∨ (Prepare_admits xp prepareEntry d = Ok true
          ∧ 0 < map_len (synchronousGroup xp)
          ∧ reply = PrepareReply.mk d sig (PrepareReply.Success reply0)
          ∧ ∃ msg, Prepare_log xp prepareEntry d sig = (xp', msg) ∧ o = Some msg)).
Proof.
  intros d. unfold Prepare_enter. fold d.
  destruct (sign xp d) as [sig|] eqn:Hsig; cbn [bind]; [|discriminate].
  destruct (Prepare_admits xp prepareEntry d) as [[|]|] eqn:Ha; cbn [bind];
    [| |discriminate].
  - destruct (Prepare_log xp prepareEntry d sig) as [xp1 msg] eqn:Hlog.
    pose proof (Prepare_log_fields _ _ _ _ _ _ Hlog) as (_ & _ & _ & Hg & _).
    rewrite Hg.
    destruct (map_len (synchronousGroup xp) - 1 <? 0) eqn:Hn; [discriminate|].
    intros [= <- <- <-]. exists sig. split; [reflexivity|]. right.
    repeat split; eauto. lia.
  - intros [= <- <- <-]. exists sig. split; [reflexivity|]. left. auto.
Qed.

Lemma Prepare_exit_inv (xp : XPaxos) reply xp' reply' :
  Prepare_exit xp reply = Ok (Some (xp', reply')) →
  ∃ slot, 0 ≤ executeSeqNum xp
    ∧ commitLog xp !! Z.to_nat (executeSeqNum xp) = Some slot
    ∧ map_len (CommitLogEntry.Msg0 slot) = map_len (synchronousGroup xp)
    ∧ xp' = set_executeSeqNum xp (int_add (executeSeqNum xp) 1)
    ∧ reply' = PrepareReply.mk (PrepareReply.MsgDigest reply)
                 (PrepareReply.Signature reply) true.
Proof.
  unfold Prepare_exit.
  destruct (index (commitLog xp) (executeSeqNum xp)) as [slot|] eqn:Hi;
    simpl; [|discriminate].
  apply index_Ok in Hi as [H0 Hs].
  destruct (map_len (CommitLogEntry.Msg0 slot) =? map_len (synchronousGroup xp))
    eqn:E; simpl; [|discriminate].
  apply Z.eqb_eq in E. intros [= <- <-]. exists slot. auto.
Qed.

Lemma Prepare_exit_intro (xp : XPaxos) reply slot :
  0 ≤ executeSeqNum xp →
  commitLog xp !! Z.to_nat (executeSeqNum xp) = Some slot →
  map_len (CommitLogEntry.Msg0 slot) = map_len (synchronousGroup xp) →
  Prepare_exit xp reply
  = Ok (Some (set_executeSeqNum xp (int_add (executeSeqNum xp) 1),
              PrepareReply.mk (PrepareReply.MsgDigest reply)
                (PrepareReply.Signature reply) true)).
Proof.
  intros H0 Hs Hn. unfold Prepare_exit.
  assert (index (commitLog xp) (executeSeqNum xp) = Ok slot) as ->
    by (apply index_Ok; auto).
  cbn [bind]. rewrite Hn, Z.eqb_refl. reflexivity.
Qed.

(** C2, as the code has it.  On a replica that can sign and has a
    non-empty group, [Prepare] accepts an entry (appends it to
    [prepareLog] and increments [prepareSeqNum]) iff the entry is the
    next in sequence, its digest is the replica's own digest of the
    request, and the sender's signature verifies under [Msg0.ServerId].
    Whatever the outcome the reply carries that digest and the replica's
    signature over it; a rejected entry is answered at once with
    [Success = false] and the state untouched.  An accepted entry is
    answered only from the barrier: each time the handler, back from its
    wait, looks at the slot at [executeSeqNum] of the state the replica
    is in by then, it answers [Success = true] and moves the frontier by
    one if the certificate of that slot has the size of the group, and
    goes back to sleep without a reply if it has not.  Nothing in the
    handler makes the first case come about.  The first critical section
    returns whenever the directory knows [Msg0.ServerId]. *)
Theorem Prepare_accepts_iff (xp : XPaxos) (prepareEntry : PrepareLogEntry.t) sig :
  sign xp (digest (PrepareLogEntry.Request prepareEntry)) = Ok sig →
  0 < map_len (synchronousGroup xp) →
  ((∃ xp' reply msg,
       Prepare_enter xp prepareEntry PrepareReply.zero = Ok (xp', reply, Some msg)
       ∧ prepareLog xp' = prepareLog xp ++ [prepareEntry]
       ∧ prepareSeqNum xp' = int_add (prepareSeqNum xp) 1)
   ↔ PrepareSeqNum (PrepareLogEntry.Msg0 prepareEntry)
       = int_add (prepareSeqNum xp) 1
     ∧ MsgDigest (PrepareLogEntry.Msg0 prepareEntry)
       = digest (PrepareLogEntry.Request prepareEntry)
     ∧ verify xp (ServerId (PrepareLogEntry.Msg0 prepareEntry))
         (digest (PrepareLogEntry.Request prepareEntry))
         (Signature (PrepareLogEntry.Msg0 prepareEntry)) = Ok true)
  ∧ (∀ xp' reply o,
       Prepare_enter xp prepareEntry PrepareReply.zero = Ok (xp', reply, o) →
       PrepareReply.MsgDigest reply = digest (PrepareLogEntry.Request prepareEntry)
       ∧ PrepareReply.Signature reply = sig
       ∧ (o = None → xp' = xp ∧ PrepareReply.Success reply = false)
       ∧ (∀ xp1 xp2 reply',
            Prepare_exit xp1 reply = Ok (Some (xp2, reply')) →
            reply' = PrepareReply.mk
                       (digest (PrepareLogEntry.Request prepareEntry)) sig true)
       ∧ (∀ xp1 slot,
            0 ≤ executeSeqNum xp1 →
            commitLog xp1 !! Z.to_nat (executeSeqNum xp1) = Some slot →
            if bool_decide (map_len (CommitLogEntry.Msg0 slot)
                            = map_len (synchronousGroup xp1))
            then Prepare_exit xp1 reply
                 = Ok (Some (mkXPaxos _ (synchronousGroup xp1) (id xp1) (view xp1)
                               (prepareSeqNum xp1)
                               (int_add (executeSeqNum xp1) 1)
                               (prepareLog xp1) (commitLog xp1)
                               (privateKey xp1) (publicKeys xp1),
                             PrepareReply.mk
                               (digest (PrepareLogEntry.Request prepareEntry))
                               sig true))
            else Prepare_exit xp1 reply = Ok None))
  ∧ (is_Some (publicKeys xp !! ServerId (PrepareLogEntry.Msg0 prepareEntry)) →
       returns (Prepare_enter xp prepareEntry PrepareReply.zero)).
Proof.
  intros Hsig Hgroup.
  set (d := digest (PrepareLogEntry.Request prepareEntry)) in *.
  split; [split|split].
  - intros (xp' & reply & msg & He & _).
    apply Prepare_enter_inv in He as (sig' & _ & [(_ & _ & _ & ?)|(Ha & _)]);
      [discriminate|].
    apply Prepare_admits_true. exact Ha.
  - intros Hthree. apply Prepare_admits_true in Hthree.
    destruct (Prepare_log xp prepareEntry d sig) as [xp' msg] eqn:Hlog.
    pose proof (Prepare_log_fields _ _ _ _ _ _ Hlog) as (Hl & Hn & _ & Hg & _).
    exists xp', (PrepareReply.mk d sig false), msg. split; [|auto].
    unfold Prepare_enter. fold d. rewrite Hsig. cbn [bind]. rewrite Hthree.
    cbn [bind]. rewrite Hlog, Hg.
    destruct (map_len (synchronousGroup xp) - 1 <? 0) eqn:E; [lia|reflexivity].
  - intros xp' reply o He.
    apply Prepare_enter_inv in He as (sig' & Hsig' & Hcase). fold d in Hsig'.
    assert (sig' = sig) as -> by congruence.
    assert (PrepareReply.MsgDigest reply = d ∧ PrepareReply.Signature reply = sig)
      as [Hd Hs].
    { destruct Hcase as [(_ & _ & -> & _)|(_ & _ & -> & _)]; auto. }
    split; [exact Hd|]. split; [exact Hs|]. split; [|split].
    + intros ->. destruct Hcase as [(_ & -> & -> & _)|(_ & _ & _ & msg & _ & ?)];
        [auto|discriminate].
    + intros xp1 xp2 reply' Hx.
      apply Prepare_exit_inv in Hx as (slot & _ & _ & _ & _ & ->).
      rewrite Hd, Hs. reflexivity.
    + intros xp1 slot H0 Hslot. case_bool_decide as Hn.
      * rewrite (Prepare_exit_intro xp1 reply slot H0 Hslot Hn), Hd, Hs.
        reflexivity.
      * unfold Prepare_exit.
        assert (index (commitLog xp1) (executeSeqNum xp1) = Ok slot) as ->
          by (apply index_Ok; auto).
        cbn [bind]. rewrite (proj2 (Z.eqb_neq _ _) Hn). reflexivity.
  - intros [pub Hpub]. unfold returns, Prepare_enter. fold d.
    rewrite Hsig. cbn [bind].
    assert (∃ b, Prepare_admits xp prepareEntry d = Ok b) as [b ->].
    { unfold Prepare_admits, verify. rewrite Hpub.
      destruct (_ && _); eauto. }
    cbn [bind]. destruct b; [|eauto].
    destruct (Prepare_log xp prepareEntry d sig) as [xp' msg] eqn:Hlog.
    pose proof (Prepare_log_fields _ _ _ _ _ _ Hlog) as (_ & _ & _ & Hg & _).
    rewrite Hg.
    destruct (map_len (synchronousGroup xp) - 1 <? 0) eqn:E; [lia|eauto].
Qed.

End HandlerFacts.

(** ** Steps of a replica *)

Section StepFacts.
Context `{Crypto}.

Lemma Replicate_log_fields (xp : XPaxos) request d sig xp' prepareEntry :
  Replicate_log xp request d sig = (xp', prepareEntry) →
  prepareEntry = PrepareLogEntry.mk request
                   (mkMessage PREPARE d sig (prepareSeqNum xp) (view xp)
                      (Timestamp request) (id xp))
  ∧ prepareLog xp' = prepareLog xp ++ [prepareEntry]
  ∧ commitLog xp' = commitLog xp ++
      [CommitLogEntry.mk request
         (<[id xp := PrepareLogEntry.Msg0 prepareEntry]> ∅)]
  ∧ prepareSeqNum xp' = prepareSeqNum xp
  ∧ executeSeqNum xp' = executeSeqNum xp
  ∧ synchronousGroup xp' = synchronousGroup xp
  ∧ id xp' = id xp ∧ view xp' = view xp
  ∧ privateKey xp' = privateKey xp ∧ publicKeys xp' = publicKeys xp.
Proof.
  unfold Replicate_log. intros [= <- <-]. simpl. repeat split; reflexivity.
Qed.

(** What each event does to the replica state. *)
Lemma step_inv (n : Node) e n' :
  step n e = Some (Ok n') →
  match e with
  | EvReplicate request =>
      ∃ reply o, Replicate_enter (replica n) request (mkReplicateReply false false)
                 = Ok (replica n', reply, o)
  | EvPrepare prepareEntry =>
      ∃ reply o, Prepare_enter (replica n) prepareEntry PrepareReply.zero
                 = Ok (replica n', reply, o)
  | EvCommit msg =>
      ∃ reply, Commit (replica n) msg CommitReply.zero = Ok (replica n', reply)
  | EvPrepareReply _ _ _ | EvCommitReply _ _ _ => replica n' = replica n
  | EvResume c =>
      ∃ k, calls n !! c = Some k
           ∧ map_len (synchronousGroup (replica n)) - 1 ≤ tokens k
           ∧ match task k with
             | InReplicate _ reply =>
                 replica n' = fst (Replicate_exit (replica n) reply)
             | InPrepare _ reply =>
                 n' = n
                 ∨ ∃ reply', Prepare_exit (replica n) reply
                             = Ok (Some (replica n', reply'))
             end
  end.
Proof.
  destruct e as [request|prepareEntry|msg|c server reply|c server reply|c];
    unfold step.
  - destruct (Replicate_enter _ _ _) as [[[xp' reply] [pe|]]|]; cbn [bind];
      intros [= <-]; simpl; eauto.
  - destruct (Prepare_enter _ _ _) as [[[xp' reply] [msg|]]|]; cbn [bind];
      intros [= <-]; simpl; eauto.
  - destruct (Commit _ _ _) as [[xp' reply]|]; cbn [bind];
      intros [= <-]; simpl; eauto.
  - destruct (calls n !! c) as [[[pe r|m r] p t]|]; try discriminate.
    case_bool_decide; [|discriminate].
    destruct (match reply with Some _ => _ | None => _ end); cbn [bind];
      intros [= <-]; reflexivity.
  - destruct (calls n !! c) as [[[pe r|m r] p t]|]; try discriminate.
    case_bool_decide; [|discriminate].
    destruct (match reply with Some _ => _ | None => _ end); cbn [bind];
      intros [= <-]; reflexivity.
  - destruct (calls n !! c) as [k|] eqn:Hk; [|discriminate].
    destruct (_ <=? tokens k) eqn:Ht; [|discriminate].
    apply Z.leb_le in Ht. intros Hs.
    exists k. split; [reflexivity|]. split; [exact Ht|].
    destruct (task k) as [pe r|m r].
    + injection Hs as <-. reflexivity.
    + destruct (Prepare_exit (replica n) r) as [[[xp' r']|]|] eqn:Hx;
        cbn [bind] in Hs; [| |discriminate]; injection Hs as <-; eauto.
Qed.

Lemma step_section (n : Node) e n' :
  step n e = Some (Ok n') → section_of (replica n) (replica n').
Proof.
  intros Hs. apply step_inv in Hs.
  destruct e as [request|prepareEntry|msg|c server reply|c server reply|c].
  - destruct Hs as (reply & o & Hr). eapply sec_Replicate_enter; eauto.
  - destruct Hs as (reply & o & Hp). eapply sec_Prepare_enter; eauto.
  - destruct Hs as (reply & Hc). eapply sec_Commit; eauto.
  - rewrite Hs. apply sec_idle.
  - rewrite Hs. apply sec_idle.
  - destruct Hs as (k & _ & _ & Hk). destruct (task k) as [pe r|m r].
    + rewrite Hk. apply sec_Replicate_exit.
    + destruct Hk as [->|(reply' & Hx)]; [apply sec_idle|].
      eapply sec_Prepare_exit; eauto.
Qed.

(** No critical section touches the configuration or the keys. *)
Lemma section_config (xp xp' : XPaxos) :
  section_of xp xp' →
  id xp' = id xp ∧ view xp' = view xp
  ∧ synchronousGroup xp' = synchronousGroup xp
  ∧ privateKey xp' = privateKey xp ∧ publicKeys xp' = publicKeys xp.
Proof.
  intros [|request reply0 xp1 reply o Hr|reply|pe reply0 xp1 reply o Hp
          |reply xp1 reply' Hx|msg reply0 xp1 reply Hc].
  - auto.
  - apply Replicate_enter_inv in Hr
      as [(_ & -> & _)|(_ & sig & e & _ & Hlog & _)]; [auto|].
    apply Replicate_log_fields in Hlog as (_ & _ & _ & _ & _ & ? & ? & ? & ? & ?).
    auto.
  - simpl. auto.
  - apply Prepare_enter_inv in Hp
      as (sig & _ & [(_ & -> & _)|(_ & _ & _ & msg & Hlog & _)]); [auto|].
    apply Prepare_log_fields in Hlog as (_ & _ & _ & ? & ? & ? & ? & ? & _).
    auto.
  - apply Prepare_exit_inv in Hx as (slot & _ & _ & _ & -> & _). simpl. auto.
  - apply Commit_inv in Hc as (sig & _ & Hc). destruct Hc; simpl; auto.
Qed.

End StepFacts.

(** ** Invariants along the runs of a replica *)

Section InvariantFacts.
Context `{Crypto}.

Lemma dense_same (xp xp' : XPaxos) :
  prepareLog xp' = prepareLog xp → prepareSeqNum xp' = prepareSeqNum xp →
  dense xp → dense xp'.
Proof. unfold dense. intros -> ->. auto. Qed.

Lemma dense_append (xp xp' : XPaxos) e :
  len (prepareLog xp) < int_max →
  PrepareSeqNum (PrepareLogEntry.Msg0 e) = int_add (prepareSeqNum xp) 1 →
  prepareLog xp' = prepareLog xp ++ [e] →
  prepareSeqNum xp' = int_add (prepareSeqNum xp) 1 →
  dense xp → dense xp'.
Proof.
  unfold dense, len. intros Hb He Hl Hn [Hseq Hall].
  assert (Hadd : int_add (prepareSeqNum xp) 1 = prepareSeqNum xp + 1).
  { apply int_add_small. unfold int_min, int_max in *. lia. }
  rewrite Hl, Hn, Hadd, length_app. simpl. split; [lia|].
  intros k e' Hk. apply lookup_app_Some in Hk as [Hk|[Hge Hk]].
  - apply Hall. exact Hk.
  - destruct (k - length (prepareLog xp))%nat as [|j] eqn:Ej; [|discriminate].
    injection Hk as <-. rewrite He, Hadd, Hseq. lia.
Qed.

Lemma dense_section (xp xp' : XPaxos) :
  len (prepareLog xp) < int_max → dense xp → section_of xp xp' → dense xp'.
Proof.
  intros Hb Hd
    [|request reply0 xp1 reply o Hr|reply|pe reply0 xp1 reply o Hp
     |reply xp1 reply' Hx|msg reply0 xp1 reply Hc].
  - exact Hd.
  - apply Replicate_enter_inv in Hr
      as [(_ & -> & _)|(_ & sig & e & _ & Hlog & _)]; [exact Hd|].
    apply Replicate_log_fields in Hlog as (He & Hl & _ & Hn & _).
    simpl in *. eapply dense_append; eauto. rewrite He. reflexivity.
  - eapply dense_same; eauto; reflexivity.
  - apply Prepare_enter_inv in Hp
      as (sig & _ & [(_ & -> & _)|(Ha & _ & _ & msg & Hlog & _)]); [exact Hd|].
    apply Prepare_admits_true in Ha as (Hseq & _).
    apply Prepare_log_fields in Hlog as (Hl & Hn & _).
    eapply dense_append; eauto.
  - apply Prepare_exit_inv in Hx as (slot & _ & _ & _ & -> & _).
    eapply dense_same; eauto; reflexivity.
  - apply Commit_inv in Hc as (sig & _ & Hc).
    destruct Hc; eapply dense_same; eauto; reflexivity.
Qed.

(** C5.  Whatever a replica does next (the critical sections of
    [Replicate] and of [Prepare], a [Commit], the arrival of a reply to
    one of its own calls) the dense numbering of [prepareLog] survives:
    entry [k] still carries [PrepareSeqNum = k + 1] and [prepareSeqNum]
    is still [len(prepareLog)].  The log is taken to be shorter than the
    largest [int], as every Go slice is. *)
Theorem dense_step (n : Node) (e : event) (n' : Node) :
  len (prepareLog (replica n)) < int_max →
  dense (replica n) →
  step n e = Some (Ok n') →
  dense (replica n').
Proof.
  intros Hb Hd Hs. eapply dense_section; eauto. apply step_section in Hs. exact Hs.
Qed.

Lemma Replicate_enter_lengths (xp : XPaxos) request reply0 xp' reply o :
  Replicate_enter xp request reply0 = Ok (xp', reply, o) →
  lengths_kept xp xp' ∨ lengths_both xp xp'.
Proof.
  intros Hr. apply Replicate_enter_inv in Hr
    as [(_ & -> & _)|(_ & sig & e & _ & Hlog & _)]; [left; split; auto|].
  apply Replicate_log_fields in Hlog as (_ & Hl & Hc & _).
  right. split; [rewrite Hl|rewrite Hc]; rewrite length_app; simpl; lia.
Qed.

Lemma Prepare_enter_lengths (xp : XPaxos) prepareEntry reply0 xp' reply o :
  Prepare_enter xp prepareEntry reply0 = Ok (xp', reply, o) →
  lengths_kept xp xp' ∨ lengths_both xp xp' ∨ lengths_prepare_only xp xp'.
Proof.
  intros Hp. apply Prepare_enter_inv in Hp
    as (sig & _ & [(_ & -> & _)|(_ & _ & _ & msg & Hlog & ->)]);
    [left; split; auto|].
  apply Prepare_log_fields in Hlog as (Hl & _ & _ & _ & _ & _ & _ & _ & _ & Hc).
  right. unfold lengths_both, lengths_prepare_only.
  rewrite Hl, Hc, length_app. simpl.
  destruct (len (commitLog xp) <=? executeSeqNum xp) eqn:E.
  - left. rewrite length_app. simpl. lia.
  - right. lia.
Qed.

Lemma Prepare_exit_lengths (xp : XPaxos) reply xp' reply' :
  Prepare_exit xp reply = Ok (Some (xp', reply')) → lengths_kept xp xp'.
Proof.
  intros Hx. apply Prepare_exit_inv in Hx as (slot & _ & _ & _ & -> & _).
  split; reflexivity.
Qed.

Lemma Commit_lengths (xp : XPaxos) msg reply0 xp' reply :
  Commit xp msg reply0 = Ok (xp', reply) → lengths_kept xp xp'.
Proof.
  intros Hc. apply Commit_inv in Hc as (sig & _ & Hc).
  destruct Hc; split; simpl; auto. apply length_insert.
Qed.

Lemma section_lengths (xp xp' : XPaxos) :
  section_of xp xp' →
  lengths_kept xp xp' ∨ lengths_both xp xp' ∨ lengths_prepare_only xp xp'.
Proof.
  intros [|request reply0 xp1 reply o Hr|reply|pe reply0 xp1 reply o Hp
          |reply xp1 reply' Hx|msg reply0 xp1 reply Hc].
  - left. split; reflexivity.
  - apply Replicate_enter_lengths in Hr as [?|?]; auto.
  - left. split; reflexivity.
  - eapply Prepare_enter_lengths; eauto.
  - left. eapply Prepare_exit_lengths; eauto.
  - left. eapply Commit_lengths; eauto.
Qed.

(** C6, as the code has it.  From [Make] on, [commitLog] is never longer
    than [prepareLog].  The two start out equally long (both empty), and
    a step keeps them equally long unless it is a [Prepare] that is
    accepted while [executeSeqNum < len(commitLog)]: that one appends to
    [prepareLog] alone. *)
Theorem commitLog_not_longer (replicas : nat) (i : Z) sk pks (n : Node) :
  reachable (boot replicas i sk pks) n →
  len (commitLog (replica n)) ≤ len (prepareLog (replica n))
  ∧ ∀ e n', step n e = Some (Ok n') →
      len (commitLog (replica n)) = len (prepareLog (replica n)) →
      len (commitLog (replica n')) = len (prepareLog (replica n'))
      ∨ (executeSeqNum (replica n) < len (commitLog (replica n))
         ∧ ∃ prepareEntry, e = EvPrepare prepareEntry).
Proof.
  intros Hr. split.
  - induction Hr as [|n e n' _ IH Hs]; [unfold boot, Make, len; simpl; lia|].
    apply step_section, section_lengths in Hs.
    unfold lengths_kept, lengths_both, lengths_prepare_only, len in *. lia.
  - intros e n' Hs Heq. apply step_inv in Hs.
    assert (Hkept : lengths_kept (replica n) (replica n') →
                    len (commitLog (replica n')) = len (prepareLog (replica n'))).
    { unfold lengths_kept, len in *. lia. }
    assert (Hboth : lengths_both (replica n) (replica n') →
                    len (commitLog (replica n')) = len (prepareLog (replica n'))).
    { unfold lengths_both, len in *. lia. }
    destruct e as [request|prepareEntry|msg|c server reply|c server reply|c].
    + destruct Hs as (reply & o & Hs).
      apply Replicate_enter_lengths in Hs as [?|?]; auto.
    + destruct Hs as (reply & o & Hs).
      apply Prepare_enter_lengths in Hs as [?|[?|(_ & _ & Hx)]]; eauto.
    + destruct Hs as (reply & Hs). apply Commit_lengths in Hs. auto.
    + rewrite Hs. auto.
    + rewrite Hs. auto.
    + destruct Hs as (k & _ & _ & Hk). destruct (task k) as [pe r|m r].
      * rewrite Hk. left. exact Heq.
      * destruct Hk as [->|(reply' & Hk)]; [auto|].
        apply Prepare_exit_lengths in Hk. auto.
Qed.






End InvariantFacts.

(** ** Concrete runs *)

Lemma run_reachable `{Crypto} (n0 : Node) (es : list event) (n : Node) :
  run n0 es = Some (Ok n) → reachable n0 n.
Proof.
  assert (Hgen : ∀ es m n, reachable n0 m → run m es = Some (Ok n) → reachable n0 n).
  { clear es n. induction es as [|e es IH]; intros m n Hm Hrun; simpl in Hrun.
    - injection Hrun as <-. exact Hm.
    - destruct (step m e) as [[m'|]|] eqn:Hs; try discriminate.
      eapply IH; [|exact Hrun]. eapply reach_step; eauto. }
  apply Hgen. apply reach_init.
Qed.

Lemma Toy_pipelined_runs :
  run Toy.leader Toy.pipelined = Some (Ok (after Toy.leader Toy.pipelined)).
Proof. vm_compute. reflexivity. Qed.


(** The barrier of [Prepare] counts keys: with an entry of index [0] in
    the certificate the follower executes slot [0] although member [3]
    has none. *)
Lemma barrier_counts_keys :
  ∃ n slot, run Toy.follower Toy.outsider = Some (Ok n)
            ∧ executeSeqNum (replica n) = 1
            ∧ commitLog (replica n) !! 0%nat = Some slot
            ∧ map_len (CommitLogEntry.Msg0 slot) = 3
            ∧ is_Some (CommitLogEntry.Msg0 slot !! 0)
            ∧ CommitLogEntry.Msg0 slot !! 3 = None
            ∧ synchronousGroup (replica n) !! 3 = Some true.
Proof.
  exists (after Toy.follower Toy.outsider).
  destruct (commitLog (replica (after Toy.follower Toy.outsider)) !! 0%nat)
    as [slot|] eqn:Hslot; [|vm_compute in Hslot; discriminate].
  exists slot. split; [vm_compute; reflexivity|].
  split; [vm_compute; reflexivity|]. split; [reflexivity|].
  vm_compute in Hslot. injection Hslot as <-.
  repeat split; vm_compute; eauto.
Qed.

(** C6 as it is stated fails.  After one [Replicate] on the leader both
    logs hold one entry, so [len(commitLog) >= len(prepareLog)] is
    true. *)
Lemma commitLog_as_long_as_prepareLog :
  ∃ n, reachable Toy.leader n
       ∧ len (prepareLog (replica n)) = 1
       ∧ (len (commitLog (replica n)) >= len (prepareLog (replica n)))%Z.
Proof.
  exists (after Toy.leader [EvReplicate Toy.reqA]). split; [|split].
  - apply run_reachable with (es := [EvReplicate Toy.reqA]).
    vm_compute. reflexivity.
  - vm_compute. reflexivity.
  - vm_compute. discriminate.
Qed.


Lemma Prepare_accepts_iff_witness :
  ∃ xp' reply msg,
    Prepare_enter (replica Toy.follower) (Toy.prepare_of Toy.reqA 1)
      PrepareReply.zero = Ok (xp', reply, Some msg)
    ∧ prepareLog xp'
      = prepareLog (replica Toy.follower) ++ [Toy.prepare_of Toy.reqA 1]
    ∧ prepareSeqNum xp' = int_add (prepareSeqNum (replica Toy.follower)) 1.
Proof.
  apply (proj1 (@Prepare_accepts_iff Toy.crypto (replica Toy.follower)
                  (Toy.prepare_of Toy.reqA 1) [x02; x61] eq_refl
                  ltac:(vm_compute; reflexivity))).
  repeat split; vm_compute; reflexivity.
Defined.

Lemma Commit_success_iff_witness :
  ∃ xp' reply,
    Commit (replica Toy.follower_prepared) (Toy.commit_of Toy.reqA 1 3 x03)
      CommitReply.zero = Ok (xp', reply)
    ∧ CommitReply.Success reply = true.
Proof.
  apply (proj1 (@Commit_success_iff Toy.crypto (replica Toy.follower_prepared)
                  (Toy.commit_of Toy.reqA 1 3 x03) [x02; x61]
                  ltac:(vm_compute; reflexivity)
                  ltac:(vm_compute; discriminate))).
  split; vm_compute; reflexivity.
Defined.

Lemma Replicate_not_leader_witness :
  id (replica Toy.follower) ≠ view (replica Toy.follower)
  ∧ Replicate_enter (replica Toy.follower) Toy.reqA (mkReplicateReply false false)
    = Ok (replica Toy.follower, mkReplicateReply false false, None).
Proof.
  assert (Hne : id (replica Toy.follower) ≠ view (replica Toy.follower))
    by (vm_compute; discriminate).
  split; [exact Hne|].
  apply (@Replicate_not_leader Toy.crypto (replica Toy.follower) Toy.reqA
           (mkReplicateReply false false) Hne).
Defined.

Lemma dense_step_witness :
  dense (replica Toy.leader)
  ∧ dense (replica (after Toy.leader [EvReplicate Toy.reqA])).
Proof.
  assert (Hd : dense (replica Toy.leader)).
  { split; [reflexivity|]. intros k e Hk. discriminate Hk. }
  split; [exact Hd|].
  apply (@dense_step Toy.crypto Toy.leader (EvReplicate Toy.reqA)
           (after Toy.leader [EvReplicate Toy.reqA])
           ltac:(vm_compute; reflexivity) Hd
           ltac:(vm_compute; reflexivity)).
Defined.

Lemma commitLog_not_longer_witness :
  len (commitLog (replica (after Toy.leader Toy.pipelined)))
  ≤ len (prepareLog (replica (after Toy.leader Toy.pipelined))).
Proof.
  apply (@commitLog_not_longer Toy.crypto 3 1 x01 Toy.keys
           (after Toy.leader Toy.pipelined)
           (run_reachable _ _ _ Toy_pipelined_runs)).
Defined.

Lemma Commit_frame_witness :
  executeSeqNum (replica Toy.follower_committed)
  = executeSeqNum (replica Toy.follower_prepared)
  ∧ length (commitLog (replica Toy.follower_committed))
    = length (commitLog (replica Toy.follower_prepared)).
Proof.
  pose proof (@Commit_frame Toy.crypto (replica Toy.follower_prepared)
                (Toy.commit_of Toy.reqA 1 3 x03) CommitReply.zero
                (replica Toy.follower_committed)
                (CommitReply.mk [x61] [x02; x61] true)
                ltac:(vm_compute; reflexivity))
    as (_ & _ & _ & He & _ & _ & Hl & _).
  split; [exact He|exact Hl].
Defined.

Lemma Commit_duplicate_witness :
  Commit (replica Toy.follower_committed) (Toy.commit_of Toy.reqA 1 3 x03)
    CommitReply.zero
  = Ok (replica Toy.follower_committed, CommitReply.mk [x61] [x02; x61] true).
Proof.
  apply (@Commit_duplicate Toy.crypto (replica Toy.follower_prepared)
           (Toy.commit_of Toy.reqA 1 3 x03)
           (replica Toy.follower_committed)
           (CommitReply.mk [x61] [x02; x61] true)
           ltac:(vm_compute; reflexivity) eq_refl).
Defined.

(** * Further properties of the code *)

(** ** Make *)

Section MakeFacts.
Context `{Crypto}.

Lemma group_fold_lookup (l : list Z) (g : gmap Z bool) (s : Z) :
  foldl (fun (g : gmap Z bool) (server : Z) =>
           if bool_decide (server ≠ CLIENT) then <[server := true]> g else g)
        g l !! s
  = if bool_decide (s ∈ l ∧ s ≠ CLIENT) then Some true else g !! s.
Proof.
  revert g. induction l as [|x l IH]; intros g; cbn [foldl].
  - rewrite bool_decide_eq_false_2; [reflexivity|].
    intros [Hin _]. apply elem_of_nil in Hin. exact Hin.
  - rewrite IH. case_bool_decide as Hl.
    + rewrite bool_decide_eq_true_2; [reflexivity|].
      destruct Hl. split; [right|]; assumption.
    + case_bool_decide as Hx.
      * destruct (decide (x = s)) as [->|Hne].
        -- rewrite lookup_insert_eq.
           rewrite bool_decide_eq_true_2; [reflexivity|]. split; [left|exact Hx].
        -- rewrite lookup_insert_ne by exact Hne.
           rewrite bool_decide_eq_false_2; [reflexivity|].
           intros [Hin Hs]. apply elem_of_cons in Hin as [->|Hin]; tauto.
      * rewrite bool_decide_eq_false_2; [reflexivity|].
        intros [Hin Hs]. apply elem_of_cons in Hin as [->|Hin]; tauto.
Qed.

Lemma Make_group_lookup (replicas : nat) (i : Z) sk pks s :
  synchronousGroup (Make replicas i sk pks) !! s
  = if bool_decide (0 < s < Z.of_nat replicas) then Some true else None.
Proof.
  unfold Make. cbn [synchronousGroup].
  rewrite group_fold_lookup, lookup_empty. unfold CLIENT.
  case_bool_decide as H1; case_bool_decide as H2; try reflexivity; exfalso.
  - destruct H1 as [Hin Hne]. apply elem_of_seqZ in Hin. lia.
  - apply H1. split; [apply elem_of_seqZ|]; lia.
Qed.

Lemma Make_group_size (replicas : nat) (i : Z) sk pks :
  map_len (synchronousGroup (Make replicas i sk pks)) = Z.of_nat (replicas - 1).
Proof.
  unfold map_len. rewrite <- size_dom.
  assert (Hdom : dom (synchronousGroup (Make replicas i sk pks))
                 = list_to_set (seqZ 1 (Z.of_nat (replicas - 1)))).
  { apply set_eq. intros s.
    rewrite elem_of_dom, Make_group_lookup, elem_of_list_to_set.
    rewrite elem_of_seqZ. case_bool_decide as Hs.
    - split; [lia|eauto].
    - split; [intros [? ?]; discriminate|lia]. }
  rewrite Hdom, size_list_to_set by apply NoDup_seqZ.
  rewrite length_seqZ. lia.
Qed.

(** The group that [Make] builds holds exactly the indices of [replicas]
    other than the client's index [0], each mapped to [true]; it has
    [len(replicas) - 1] members, and none when [replicas] is empty. *)
Theorem Make_group (replicas : nat) (i : Z) sk pks :
  (∀ s, synchronousGroup (Make replicas i sk pks) !! s
        = if bool_decide (0 < s < Z.of_nat replicas) then Some true else None)
  ∧ map_len (synchronousGroup (Make replicas i sk pks))
    = Z.of_nat (replicas - 1).
Proof.
  split; [intros s; apply Make_group_lookup|apply Make_group_size].
Qed.

(** A replica made for fewer than two indices has an empty group, and a
    [Replicate] it leads does not return: the handler dies at the signer
    or at [make(chan bool, -1)]. *)
Theorem Replicate_empty_group (replicas : nat) sk pks request reply0 :
  (replicas ≤ 1)%nat →
  ¬ returns (Replicate_enter (Make replicas 1 sk pks) request reply0).
Proof.
  intros Hn [[[xp' reply] o] Hr].
  apply Replicate_enter_inv in Hr
    as [(Hne & _)|(_ & sig & e & _ & _ & Hg & _)].
  - apply Hne. reflexivity.
  - rewrite Make_group_size in Hg. lia.
Qed.

Lemma boot_config (replicas : nat) (i : Z) sk pks (n : Node) :
  reachable (boot replicas i sk pks) n →
  view (replica n) = 1 ∧ id (replica n) = i
  ∧ synchronousGroup (replica n) = synchronousGroup (Make replicas i sk pks)
  ∧ privateKey (replica n) = sk ∧ publicKeys (replica n) = pks.
Proof.
  induction 1 as [|n e n' _ IH Hs]; [repeat split|].
  apply step_section, section_config in Hs as (-> & -> & -> & -> & ->).
  exact IH.
Qed.

(** No handler touches the configuration: along every run from [Make]
    the view stays [1], the id, the group and the keys stay what [Make]
    was given, and [getState] keeps answering that the leader is
    replica [1]. *)
Theorem configuration_fixed (replicas : nat) (i : Z) sk pks (n : Node) :
  reachable (boot replicas i sk pks) n →
  view (replica n) = 1
  ∧ id (replica n) = i
  ∧ synchronousGroup (replica n) = synchronousGroup (Make replicas i sk pks)
  ∧ privateKey (replica n) = sk
  ∧ publicKeys (replica n) = pks
  ∧ getState (replica n) = (1, bool_decide (i = 1)).
Proof.
  intros Hr. apply boot_config in Hr as (Hv & Hi & Hg & Hsk & Hpk).
  repeat split; try assumption.
  unfold getState. rewrite Hv, Hi. reflexivity.
Qed.

End MakeFacts.

(** ** The fan-out tasks *)

Section IssueFacts.
Context `{Crypto}.

Lemma verify_cases (xp : XPaxos) server d s :
  (publicKeys xp !! server = None ∧ verify xp server d s = Abort PanicNilPublicKey)
  ∨ verify xp server d s = Ok true
  ∨ verify xp server d s = Ok false.
Proof.
  unfold verify. destruct (publicKeys xp !! server) as [pub|]; [|auto].
  destruct (rsa_VerifyPKCS1v15 pub d s); auto.
Qed.

(** What [issuePrepare] makes of a delivered reply.  A token goes to
    [replyCh] iff the reply repeats the digest that was sent, carries a
    signature of [server] over it and says [Success]; the call is issued
    again iff digest and signature are right and [Success] is false; the
    reply is dropped, and the server never counted, iff the digest
    differs or the signature is bad; and the task faults iff the digest
    matches and [server] has no key in the directory: a reply with
    another digest is dropped before any key is looked up. *)
Theorem issuePrepare_outcome (xp : XPaxos) server
    (prepareEntry : PrepareLogEntry.t) (reply : PrepareReply.t) :
  (issuePrepare xp server prepareEntry reply = Ok Token
   ↔ MsgDigest (PrepareLogEntry.Msg0 prepareEntry) = PrepareReply.MsgDigest reply
     ∧ verify xp server (PrepareReply.MsgDigest reply)
         (PrepareReply.Signature reply) = Ok true
     ∧ PrepareReply.Success reply = true)
  ∧ (issuePrepare xp server prepareEntry reply = Ok Reissue
     ↔ MsgDigest (PrepareLogEntry.Msg0 prepareEntry) = PrepareReply.MsgDigest reply
       ∧ verify xp server (PrepareReply.MsgDigest reply)
           (PrepareReply.Signature reply) = Ok true
       ∧ PrepareReply.Success reply = false)
  ∧ (issuePrepare xp server prepareEntry reply = Ok Dropped
     ↔ MsgDigest (PrepareLogEntry.Msg0 prepareEntry) ≠ PrepareReply.MsgDigest reply
       ∨ verify xp server (PrepareReply.MsgDigest reply)
           (PrepareReply.Signature reply) = Ok false)
  ∧ (¬ returns (issuePrepare xp server prepareEntry reply)
     ↔ MsgDigest (PrepareLogEntry.Msg0 prepareEntry) = PrepareReply.MsgDigest reply
       ∧ publicKeys xp !! server = None).
Proof.
  unfold issuePrepare, returns.
  destruct (bytes_Compare _ _ =? 0) eqn:Hd.
  - apply bytes_Compare_eqb in Hd.
    destruct (verify_cases xp server (PrepareReply.MsgDigest reply)
                (PrepareReply.Signature reply)) as [[Hk Hv]|[Hv|Hv]];
      rewrite Hv; cbn [bind];
      destruct (PrepareReply.Success reply); outcome_rows.
  - assert (Hne : MsgDigest (PrepareLogEntry.Msg0 prepareEntry)
                  ≠ PrepareReply.MsgDigest reply).
    { intros E. apply bytes_Compare_eqb in E. congruence. }
    outcome_rows.
Qed.

(** [issueCommit] sorts replies the same way. *)
Theorem issueCommit_outcome (xp : XPaxos) server (msg : Message)
    (reply : CommitReply.t) :
  (issueCommit xp server msg reply = Ok Token
   ↔ MsgDigest msg = CommitReply.MsgDigest reply
     ∧ verify xp server (CommitReply.MsgDigest reply)
         (CommitReply.Signature reply) = Ok true
     ∧ CommitReply.Success reply = true)
  ∧ (issueCommit xp server msg reply = Ok Reissue
     ↔ MsgDigest msg = CommitReply.MsgDigest reply
       ∧ verify xp server (CommitReply.MsgDigest reply)
           (CommitReply.Signature reply) = Ok true
       ∧ CommitReply.Success reply = false)
  ∧ (issueCommit xp server msg reply = Ok Dropped
     ↔ MsgDigest msg ≠ CommitReply.MsgDigest reply
       ∨ verify xp server (CommitReply.MsgDigest reply)
           (CommitReply.Signature reply) = Ok false)
  ∧ (¬ returns (issueCommit xp server msg reply)
     ↔ MsgDigest msg = CommitReply.MsgDigest reply
       ∧ publicKeys xp !! server = None).
Proof.
  unfold issueCommit, returns.
  destruct (bytes_Compare _ _ =? 0) eqn:Hd.
  - apply bytes_Compare_eqb in Hd.
    destruct (verify_cases xp server (CommitReply.MsgDigest reply)
                (CommitReply.Signature reply)) as [[Hk Hv]|[Hv|Hv]];
      rewrite Hv; cbn [bind];
      destruct (CommitReply.Success reply); outcome_rows.
  - assert (Hne : MsgDigest msg ≠ CommitReply.MsgDigest reply).
    { intros E. apply bytes_Compare_eqb in E. congruence. }
    outcome_rows.
Qed.

(** ** Handlers and fan-out tasks of two replicas *)

(** Whatever [Commit] on replica [B] answers, the [issueCommit] task of
    a replica [A] that knows [B]'s key never drops it: a token when the
    answer says [Success], one more call when it does not.  The answer
    repeats the digest it was handed with [B]'s signature over it,
    accepted or not. *)
Theorem Commit_reply_counts (xpA xpB : XPaxos) (msg : Message) xpB' reply :
  rsa_sound →
  publicKeys xpA !! id xpB = Some (PublicOf (privateKey xpB)) →
  Commit xpB msg CommitReply.zero = Ok (xpB', reply) →
  issueCommit xpA (id xpB) msg reply
  = Ok (if CommitReply.Success reply then Token else Reissue).
Proof.
  intros Hsound Hkey Hc. apply Commit_inv in Hc as (sig & Hsig & Hc).
  pose proof (signed_verifies xpB xpA _ _ Hsound Hkey Hsig) as Hv.
  unfold issueCommit.
  destruct Hc; cbn [CommitReply.MsgDigest CommitReply.Signature CommitReply.Success];
    rewrite bytes_Compare_refl, Z.eqb_refl, Hv; reflexivity.
Qed.

(** The answers of [Prepare] on replica [B], seen by the [issuePrepare]
    task of a replica [A] that knows [B]'s key.  When the entry carries
    the digest of its own request, a rejection makes [A] issue the call
    again and the final answer of an accepted entry gives [A] its token.
    When the entry carries another digest, [B] rejects it and [A] drops
    the answer: that server is never asked again. *)
Theorem Prepare_reply_counts (xpA xpB : XPaxos)
    (prepareEntry : PrepareLogEntry.t) xpB' reply o :
  rsa_sound →
  publicKeys xpA !! id xpB = Some (PublicOf (privateKey xpB)) →
  Prepare_enter xpB prepareEntry PrepareReply.zero = Ok (xpB', reply, o) →
  (MsgDigest (PrepareLogEntry.Msg0 prepareEntry)
   = digest (PrepareLogEntry.Request prepareEntry) →
   (o = None → issuePrepare xpA (id xpB) prepareEntry reply = Ok Reissue)
   ∧ (∀ xp1 xp2 reply',
        Prepare_exit xp1 reply = Ok (Some (xp2, reply')) →
        issuePrepare xpA (id xpB) prepareEntry reply' = Ok Token))
  ∧ (MsgDigest (PrepareLogEntry.Msg0 prepareEntry)
     ≠ digest (PrepareLogEntry.Request prepareEntry) →
     o = None ∧ issuePrepare xpA (id xpB) prepareEntry reply = Ok Dropped).
Proof.
  intros Hsound Hkey He.
  apply Prepare_enter_inv in He as (sig & Hsig & Hcase).
  pose proof (signed_verifies xpB xpA _ _ Hsound Hkey Hsig) as Hv.
  split.
  - intros Hd. split.
    + intros ->. destruct Hcase as [(_ & _ & -> & _)|(_ & _ & _ & m & _ & ?)];
        [|discriminate].
      unfold issuePrepare. cbn [PrepareReply.MsgDigest PrepareReply.Signature
                                PrepareReply.Success].
      rewrite Hd, bytes_Compare_refl, Z.eqb_refl, Hv. reflexivity.
    + intros xp1 xp2 reply' Hx.
      apply Prepare_exit_inv in Hx as (slot & _ & _ & _ & _ & ->).
      unfold issuePrepare. cbn [PrepareReply.MsgDigest PrepareReply.Signature
                                PrepareReply.Success].
      destruct Hcase as [(_ & _ & -> & _)|(_ & _ & -> & _)];
        cbn [PrepareReply.MsgDigest PrepareReply.Signature];
        rewrite Hd, bytes_Compare_refl, Z.eqb_refl, Hv; reflexivity.
  - intros Hne.
    destruct Hcase as [(_ & _ & -> & ->)|(Ha & _)].
    + split; [reflexivity|]. unfold issuePrepare.
      cbn [PrepareReply.MsgDigest].
      destruct (bytes_Compare _ _ =? 0) eqn:E; [|reflexivity].
      apply bytes_Compare_eqb in E. contradiction.
    + apply Prepare_admits_true in Ha as (_ & Hd & _). contradiction.
Qed.

(** The entry that [Replicate] builds on the leader is admitted by a
    replica that knows the leader's key iff it is the next in that
    replica's sequence: a follower in step takes it, a follower that is
    behind or ahead rejects it. *)
Theorem leader_entry_admitted (xpL xpF : XPaxos) (request : ClientRequest)
    reply0 xpL' reply prepareEntry :
  rsa_sound →
  publicKeys xpF !! id xpL = Some (PublicOf (privateKey xpL)) →
  Replicate_enter xpL request reply0 = Ok (xpL', reply, Some prepareEntry) →
  PrepareLogEntry.Request prepareEntry = request
  ∧ Prepare_admits xpF prepareEntry (digest request)
    = Ok (bool_decide (int_add (prepareSeqNum xpL) 1
                       = int_add (prepareSeqNum xpF) 1)).
Proof.
  intros Hsound Hkey Hr.
  apply Replicate_enter_inv in Hr
    as [(_ & _ & _ & ?)|(_ & sig & e & Hsig & Hlog & _ & _ & [= <-])];
    [discriminate|].
  apply Replicate_log_fields in Hlog as (-> & _).
  split; [reflexivity|].
  pose proof (signed_verifies xpL xpF _ _ Hsound Hkey Hsig) as Hv.
  unfold Prepare_admits. cbn.
  rewrite bytes_Compare_refl, Z.eqb_refl, Hv.
  case_bool_decide as Hs.
  - rewrite (proj2 (Z.eqb_eq _ _) Hs). reflexivity.
  - rewrite (proj2 (Z.eqb_neq _ _) Hs). reflexivity.
Qed.

End IssueFacts.

(** ** Repeated and competing deliveries *)

Lemma int_wrap_range z : int_min ≤ int_wrap z ≤ int_max.
Proof.
  unfold int_wrap, int_min, int_max.
  pose proof (Z.mod_pos_bound (z + 2 ^ 63) (2 ^ 64) ltac:(lia)). lia.
Qed.

Lemma int_add_1_neq x : int_min ≤ x ≤ int_max → int_add x 1 ≠ x.
Proof.
  unfold int_add, int_wrap, int_min, int_max. intros Hx.
  destruct (Z.eq_dec x (2 ^ 63 - 1)) as [->|Hne].
  - vm_compute. discriminate.
  - rewrite Z.mod_small by lia. lia.
Qed.

Section DeliveryFacts.
Context `{Crypto}.

(** An entry that [Prepare] has accepted is rejected when it is
    delivered again: the second call answers [Success = false] with the
    same digest and signature and leaves the state alone, so the entry
    is logged once.  (Its sequence number is no longer the next one,
    even across the wrap-around of [int].) *)
Theorem Prepare_duplicate (xp : XPaxos) (prepareEntry : PrepareLogEntry.t)
    reply0 xp' reply msg :
  Prepare_enter xp prepareEntry reply0 = Ok (xp', reply, Some msg) →
  Prepare_enter xp' prepareEntry PrepareReply.zero
  = Ok (xp', PrepareReply.mk (PrepareReply.MsgDigest reply)
               (PrepareReply.Signature reply) false, None).
Proof.
  intros He. apply Prepare_enter_inv in He
    as (sig & Hsig & [(_ & _ & _ & ?)|(Ha & _ & -> & m & Hlog & _)]);
    [discriminate|].
  apply Prepare_admits_true in Ha as (Hseq & _).
  apply Prepare_log_fields in Hlog as (_ & Hn & _ & _ & _ & _ & Hsk & _).
  unfold Prepare_enter.
  assert (sign xp' (digest (PrepareLogEntry.Request prepareEntry)) = Ok sig) as ->.
  { unfold sign in *. rewrite Hsk. exact Hsig. }
  cbn [bind]. unfold Prepare_admits. rewrite Hn, Hseq.
  assert ((int_add (prepareSeqNum xp) 1
           =? int_add (int_add (prepareSeqNum xp) 1) 1) = false) as ->.
  { apply Z.eqb_neq. intros E. symmetry in E. revert E.
    apply int_add_1_neq. apply int_wrap_range. }
  reflexivity.
Qed.

(** [Commit] looks at the digest, the signature and the server id of a
    message and at nothing else: two messages that agree on these three
    get the same reply, whatever their type, sequence number, view or
    timestamp say, and whatever request the slot holds. *)
Theorem Commit_reads_three_fields (xp : XPaxos) (msg msg' : Message) reply0 xp' reply :
  MsgDigest msg' = MsgDigest msg →
  Signature msg' = Signature msg →
  ServerId msg' = ServerId msg →
  Commit xp msg reply0 = Ok (xp', reply) →
  ∃ xp'', Commit xp msg' reply0 = Ok (xp'', reply).
Proof.
  intros Hd Hs Hi Hc. apply Commit_inv in Hc as (sig & Hsig & Hc).
  destruct Hc as [Hv|Hv Hle|slot Hv Hr Hslot]; eexists;
    (apply Commit_intro with (sig := sig); [rewrite Hd; exact Hsig|]);
    rewrite <- Hd.
  - apply Commit_bad_signature. rewrite Hd, Hs, Hi. exact Hv.
  - apply Commit_no_slot; [rewrite Hd, Hs, Hi; exact Hv|exact Hle].
  - apply Commit_stored with (slot := slot);
      [rewrite Hd, Hs, Hi; exact Hv|exact Hr|exact Hslot].
Qed.

(** Two messages of different servers can reach [Commit] in either
    order: the replies are the same and so is the final state. *)
Theorem Commit_commute (xp : XPaxos) (m1 m2 : Message) xp1 r1 xp12 r2 :
  ServerId m1 ≠ ServerId m2 →
  Commit xp m1 CommitReply.zero = Ok (xp1, r1) →
  Commit xp1 m2 CommitReply.zero = Ok (xp12, r2) →
  ∃ xp2, Commit xp m2 CommitReply.zero = Ok (xp2, r2)
         ∧ Commit xp2 m1 CommitReply.zero = Ok (xp12, r1).
Proof.
  intros Hne H1 H2. pose proof H2 as H2'.
  apply Commit_inv in H1 as (s1 & Hs1 & C1).
  apply Commit_inv in H2 as (s2 & Hs2 & C2).
  destruct C1 as [Hv1|Hv1 Hle1|slot1 Hv1 Hr1 Hl1].
  - (* m1 is turned down for its signature, before and after m2 *)
    exists xp12. split; [exact H2'|].
    apply Commit_intro with (sig := s1);
      [destruct C2; exact Hs1|].
    destruct C2; apply Commit_bad_signature; exact Hv1.
  - (* no slot for m1, hence none for m2 *)
    exists xp12. split; [exact H2'|].
    apply Commit_intro with (sig := s1);
      [destruct C2; exact Hs1|].
    destruct C2 as [Hv2|Hv2 Hle2|slot2 Hv2 Hr2 Hl2];
      [apply Commit_no_slot; assumption
      |apply Commit_no_slot; assumption
      |lia].
  - assert (Hlt : (Z.to_nat (executeSeqNum xp) < length (commitLog xp))%nat)
      by (eapply lookup_lt_Some; eauto).
    destruct C2 as [Hv2|Hv2 Hle2|slot2 Hv2 Hr2 Hl2].
    + exists xp. split.
      * apply Commit_intro with (sig := s2); [exact Hs2|].
        apply Commit_bad_signature. exact Hv2.
      * apply Commit_intro with (sig := s1); [exact Hs1|].
        apply Commit_stored; assumption.
    + exfalso. unfold certify, len in Hle2. simpl in Hle2.
      rewrite length_insert in Hle2. unfold len in Hr1. lia.
    + unfold certify in Hl2. simpl in Hl2.
      rewrite list_lookup_insert_eq in Hl2 by exact Hlt.
      injection Hl2 as <-.
      exists (certify xp slot1 m2). split.
      * apply Commit_intro with (sig := s2); [exact Hs2|].
        apply Commit_stored; assumption.
      * apply Commit_intro with (sig := s1); [exact Hs1|].
        assert (certify (certify xp slot1 m1)
                  (CommitLogEntry.mk (CommitLogEntry.Request slot1)
                     (<[ServerId m1 := m1]> (CommitLogEntry.Msg0 slot1))) m2
                = certify (certify xp slot1 m2)
                    (CommitLogEntry.mk (CommitLogEntry.Request slot1)
                       (<[ServerId m2 := m2]> (CommitLogEntry.Msg0 slot1))) m1)
          as ->.
        { unfold certify, set_commitLog. simpl. f_equal.
          rewrite !list_insert_insert_eq. f_equal. f_equal.
          apply insert_insert_ne. congruence. }
        apply Commit_stored.
        -- exact Hv1.
        -- unfold certify, len. simpl. rewrite length_insert. exact Hr1.
        -- unfold certify. simpl. apply list_lookup_insert_eq. exact Hlt.
Qed.

(** Two accepted messages that name the same server: the later one
    takes the place of the earlier one in the certificate, whatever
    their digests, and the state is the one the later message alone
    would have left. *)
Theorem Commit_overwrite (xp : XPaxos) (m1 m2 : Message) xp1 r1 xp12 r2 :
  ServerId m1 = ServerId m2 →
  Commit xp m1 CommitReply.zero = Ok (xp1, r1) →
  CommitReply.Success r1 = true →
  Commit xp1 m2 CommitReply.zero = Ok (xp12, r2) →
  CommitReply.Success r2 = true →
  Commit xp m2 CommitReply.zero = Ok (xp12, r2).
Proof.
  intros Hid H1 S1 H2 S2.
  apply Commit_inv in H1 as (s1 & Hs1 & C1).
  apply Commit_inv in H2 as (s2 & Hs2 & C2).
  destruct C1 as [Hv1|Hv1 Hle1|slot1 Hv1 Hr1 Hl1]; simpl in S1; try discriminate.
  destruct C2 as [Hv2|Hv2 Hle2|slot2 Hv2 Hr2 Hl2]; simpl in S2; try discriminate.
  assert (Hlt : (Z.to_nat (executeSeqNum xp) < length (commitLog xp))%nat)
    by (eapply lookup_lt_Some; eauto).
  unfold certify in Hl2. simpl in Hl2.
  rewrite list_lookup_insert_eq in Hl2 by exact Hlt. injection Hl2 as <-.
  apply Commit_intro with (sig := s2); [exact Hs2|].
  assert (certify (certify xp slot1 m1)
            (CommitLogEntry.mk (CommitLogEntry.Request slot1)
               (<[ServerId m1 := m1]> (CommitLogEntry.Msg0 slot1))) m2
          = certify xp slot1 m2) as ->.
  { unfold certify, set_commitLog. simpl. f_equal.
    rewrite list_insert_insert_eq. f_equal. f_equal.
    rewrite Hid. apply insert_insert_eq. }
  apply Commit_stored; assumption.
Qed.

End DeliveryFacts.

(** ** What a run does to the logs *)

Section LogFacts.
Context `{Crypto}.

Lemma certify_requests (xp : XPaxos) slot msg :
  commitLog xp !! Z.to_nat (executeSeqNum xp) = Some slot →
  CommitLogEntry.Request <$> commitLog (certify xp slot msg)
  = CommitLogEntry.Request <$> commitLog xp.
Proof.
  intros Hs. unfold certify. simpl. rewrite list_fmap_insert. simpl.
  apply list_insert_id. rewrite list_lookup_fmap, Hs. reflexivity.
Qed.

(** One critical section: [prepareLog] is extended at its end or left
    alone, no slot of [commitLog] is lost, a slot keeps its request, and
    a certificate keeps the keys it has. *)
Lemma section_logs (xp xp' : XPaxos) :
  section_of xp xp' →
  prepareLog xp `prefix_of` prepareLog xp'
  ∧ ∀ (i : nat) slot, commitLog xp !! i = Some slot →
      ∃ slot', commitLog xp' !! i = Some slot'
               ∧ CommitLogEntry.Request slot' = CommitLogEntry.Request slot
               ∧ dom (CommitLogEntry.Msg0 slot) ⊆ dom (CommitLogEntry.Msg0 slot').
Proof.
  assert (Hsame : ∀ xp1 : XPaxos,
    prepareLog xp1 = prepareLog xp → commitLog xp1 = commitLog xp →
    prepareLog xp `prefix_of` prepareLog xp1
    ∧ ∀ (i : nat) slot, commitLog xp !! i = Some slot →
        ∃ slot', commitLog xp1 !! i = Some slot'
                 ∧ CommitLogEntry.Request slot' = CommitLogEntry.Request slot
                 ∧ dom (CommitLogEntry.Msg0 slot) ⊆ dom (CommitLogEntry.Msg0 slot')).
  { intros xp1 -> ->. split; [reflexivity|]. intros i slot Hi. eauto. }
  assert (Happ : ∀ (xp1 : XPaxos) e l,
    prepareLog xp1 = prepareLog xp ++ [e] → commitLog xp1 = commitLog xp ++ l →
    prepareLog xp `prefix_of` prepareLog xp1
    ∧ ∀ (i : nat) slot, commitLog xp !! i = Some slot →
        ∃ slot', commitLog xp1 !! i = Some slot'
                 ∧ CommitLogEntry.Request slot' = CommitLogEntry.Request slot
                 ∧ dom (CommitLogEntry.Msg0 slot) ⊆ dom (CommitLogEntry.Msg0 slot')).
  { intros xp1 e l -> ->. split; [apply prefix_app_r; reflexivity|].
    intros i slot Hi. exists slot. split; [|auto].
    rewrite lookup_app_l by (eapply lookup_lt_Some; eauto). exact Hi. }
  intros [|request reply0 xp1 reply o Hr|reply|pe reply0 xp1 reply o Hp
          |reply xp1 reply' Hx|msg reply0 xp1 reply Hc].
  - apply Hsame; reflexivity.
  - apply Replicate_enter_inv in Hr
      as [(_ & -> & _)|(_ & sig & e & _ & Hlog & _)]; [apply Hsame; reflexivity|].
    apply Replicate_log_fields in Hlog as (_ & Hl & Hc & _).
    eapply Happ; eauto.
  - apply Hsame; reflexivity.
  - apply Prepare_enter_inv in Hp
      as (sig & _ & [(_ & -> & _)|(_ & _ & _ & msg & Hlog & _)]);
      [apply Hsame; reflexivity|].
    apply Prepare_log_fields in Hlog as (Hl & _ & _ & _ & _ & _ & _ & _ & _ & Hc).
    destruct (len (commitLog xp) <=? executeSeqNum xp).
    + eapply Happ; eauto.
    + apply (Happ xp1 pe []); [exact Hl|]. rewrite Hc, app_nil_r. reflexivity.
  - apply Prepare_exit_inv in Hx as (slot & _ & _ & _ & -> & _).
    apply Hsame; reflexivity.
  - apply Commit_inv in Hc as (sig & _ & Hc).
    destruct Hc as [Hv|Hv Hle|slot Hv Hr Hs]; try (apply Hsame; reflexivity).
    split; [reflexivity|]. intros i slot0 Hi. unfold certify. simpl.
    destruct (decide (i = Z.to_nat (executeSeqNum xp))) as [->|Hne].
    + rewrite list_lookup_insert_eq by (eapply lookup_lt_Some; eauto).
      rewrite Hs in Hi. injection Hi as <-. eexists. split; [reflexivity|].
      split; [reflexivity|]. simpl. apply dom_insert_subseteq.
    + rewrite list_lookup_insert_ne by congruence. eauto.
Qed.

(** Along a run nothing is ever taken back: [prepareLog] only grows at
    its end, every slot of [commitLog] stays in place with the request it
    was created for, and the set of servers that a certificate has an
    entry of only grows. *)
Theorem logs_append_only (n0 n : Node) :
  reachable n0 n →
  prepareLog (replica n0) `prefix_of` prepareLog (replica n)
  ∧ ∀ (i : nat) slot, commitLog (replica n0) !! i = Some slot →
      ∃ slot', commitLog (replica n) !! i = Some slot'
               ∧ CommitLogEntry.Request slot' = CommitLogEntry.Request slot
               ∧ dom (CommitLogEntry.Msg0 slot) ⊆ dom (CommitLogEntry.Msg0 slot').
Proof.
  induction 1 as [|n e n' _ [IHp IHc] Hs].
  - split; [reflexivity|]. eauto.
  - apply step_section, section_logs in Hs as [Hp Hc]. split.
    + etransitivity; eauto.
    + intros i slot Hi. destruct (IHc i slot Hi) as (s1 & H1 & Hr1 & Hd1).
      destruct (Hc i s1 H1) as (s2 & H2 & Hr2 & Hd2).
      exists s2. split; [exact H2|]. split; [congruence|].
      etransitivity; eauto.
Qed.

Lemma section_requests (xp xp' : XPaxos) :
  section_of xp xp' →
  (CommitLogEntry.Request <$> commitLog xp)
    `sublist_of` (PrepareLogEntry.Request <$> prepareLog xp) →
  (CommitLogEntry.Request <$> commitLog xp')
    `sublist_of` (PrepareLogEntry.Request <$> prepareLog xp').
Proof.
  intros [|request reply0 xp1 reply o Hr|reply|pe reply0 xp1 reply o Hp
          |reply xp1 reply' Hx|msg reply0 xp1 reply Hc] Hsub.
  - exact Hsub.
  - apply Replicate_enter_inv in Hr
      as [(_ & -> & _)|(_ & sig & e & _ & Hlog & _)]; [exact Hsub|].
    apply Replicate_log_fields in Hlog as (-> & Hl & Hc & _).
    rewrite Hl, Hc, !fmap_app. apply sublist_app; [exact Hsub|reflexivity].
  - exact Hsub.
  - apply Prepare_enter_inv in Hp
      as (sig & _ & [(_ & -> & _)|(_ & _ & _ & msg & Hlog & _)]); [exact Hsub|].
    apply Prepare_log_fields in Hlog as (Hl & _ & _ & _ & _ & _ & _ & _ & _ & Hc).
    rewrite Hl, Hc, fmap_app.
    destruct (len (commitLog xp) <=? executeSeqNum xp).
    + rewrite fmap_app. apply sublist_app; [exact Hsub|reflexivity].
    + apply sublist_inserts_r. exact Hsub.
  - apply Prepare_exit_inv in Hx as (slot & _ & _ & _ & -> & _). exact Hsub.
  - apply Commit_inv in Hc as (sig & _ & Hc).
    destruct Hc as [Hv|Hv Hle|slot Hv Hr Hs]; try exact Hsub.
    rewrite certify_requests by exact Hs. exact Hsub.
Qed.

(** From [Make] on, the requests of [commitLog] are requests of
    [prepareLog], in the same order: a slot is only ever created for a
    request that is logged as prepared in the same critical section. *)
Theorem committed_requests_prepared (replicas : nat) (i : Z) sk pks (n : Node) :
  reachable (boot replicas i sk pks) n →
  (CommitLogEntry.Request <$> commitLog (replica n))
    `sublist_of` (PrepareLogEntry.Request <$> prepareLog (replica n)).
Proof.
  induction 1 as [|n e n' _ IH Hs]; [reflexivity|].
  eapply section_requests; [|exact IH]. apply step_section in Hs. exact Hs.
Qed.

End LogFacts.

(** ** The execution frontier and the handlers in flight *)

Section FrontierFacts.
Context `{Crypto}.

(** What each event does to the list of waiting handlers. *)
Lemma step_calls (n : Node) e n' :
  step n e = Some (Ok n') →
  match e with
  | EvReplicate request =>
      ∃ reply o,
        Replicate_enter (replica n) request (mkReplicateReply false false)
        = Ok (replica n', reply, o)
        ∧ calls n' = calls n ++
            match o with
            | Some pe => [spawn (replica n') (InReplicate pe reply)]
            | None => []
            end
  | EvPrepare prepareEntry =>
      ∃ reply o,
        Prepare_enter (replica n) prepareEntry PrepareReply.zero
        = Ok (replica n', reply, o)
        ∧ calls n' = calls n ++
            match o with
            | Some msg => [spawn (replica n') (InPrepare msg reply)]
            | None => []
            end
  | EvCommit msg => calls n' = calls n
  | EvPrepareReply c server _ | EvCommitReply c server _ =>
      ∃ k i, calls n !! c = Some k ∧ server ∈ pending k
             ∧ calls n' = <[c := settle k server i]> (calls n)
  | EvResume c =>
      ∃ k, calls n !! c = Some k
           ∧ (n' = n
              ∨ (calls n' = delete c (calls n)
                 ∧ replica n'
                   = set_executeSeqNum (replica n)
                       (int_add (executeSeqNum (replica n)) 1)
                 ∧ match task k with
                   | InReplicate _ _ => True
                   | InPrepare _ _ =>
                       0 ≤ executeSeqNum (replica n) < len (commitLog (replica n))
                   end))
  end.
Proof.
  destruct e as [request|prepareEntry|msg|c server reply|c server reply|c];
    unfold step.
  - destruct (Replicate_enter _ _ _) as [[[xp' reply] [pe|]]|]; cbn [bind];
      intros [= <-]; simpl; eexists _, _; split; try reflexivity.
    rewrite app_nil_r. reflexivity.
  - destruct (Prepare_enter _ _ _) as [[[xp' reply] [msg|]]|]; cbn [bind];
      intros [= <-]; simpl; eexists _, _; split; try reflexivity.
    rewrite app_nil_r. reflexivity.
  - destruct (Commit _ _ _) as [[xp' reply]|]; cbn [bind];
      intros [= <-]; reflexivity.
  - destruct (calls n !! c) as [[[pe r|m r] p t]|] eqn:Hk; try discriminate.
    case_bool_decide as Hin; [|discriminate].
    destruct (match reply with Some _ => _ | None => _ end) as [i|];
      cbn [bind]; intros [= <-]. simpl. eauto.
  - destruct (calls n !! c) as [[[pe r|m r] p t]|] eqn:Hk; try discriminate.
    case_bool_decide as Hin; [|discriminate].
    destruct (match reply with Some _ => _ | None => _ end) as [i|];
      cbn [bind]; intros [= <-]. simpl. eauto.
  - destruct (calls n !! c) as [k|] eqn:Hk; [|discriminate].
    destruct (_ <=? tokens k); [|discriminate].
    intros Hs. exists k. split; [reflexivity|].
    destruct (task k) as [pe r|m r].
    + injection Hs as <-. right. simpl. auto.
    + destruct (Prepare_exit (replica n) r) as [[[xp' r']|]|] eqn:Hx;
        cbn [bind] in Hs; [| |discriminate]; injection Hs as <-; [|auto].
      apply Prepare_exit_inv in Hx as (slot & H0 & Hslot & _ & -> & _).
      right. simpl. split; [reflexivity|]. split; [reflexivity|].
      split; [exact H0|]. apply lookup_lt_Some in Hslot. unfold len. lia.
Qed.

(** Only a handler that comes back from its wait moves the frontier,
    and by one slot: the first critical sections of [Replicate] and
    [Prepare], [Commit] and the replies to fan-out calls leave
    [executeSeqNum] alone. *)
Theorem frontier_moves_on_resume (n : Node) (e : event) (n' : Node) :
  step n e = Some (Ok n') →
  executeSeqNum (replica n') = executeSeqNum (replica n)
  ∨ (executeSeqNum (replica n') = int_add (executeSeqNum (replica n)) 1
     ∧ ∃ c, e = EvResume c).
Proof.
  intros Hs. pose proof (step_calls _ _ _ Hs) as Hc. apply step_inv in Hs.
  destruct e as [request|prepareEntry|msg|c server reply|c server reply|c].
  - destruct Hs as (reply & o & Hr). left.
    apply Replicate_enter_inv in Hr
      as [(_ & -> & _)|(_ & sig & e & _ & Hlog & _)]; [reflexivity|].
    apply Replicate_log_fields in Hlog as (_ & _ & _ & _ & -> & _). reflexivity.
  - destruct Hs as (reply & o & Hp). left.
    apply Prepare_enter_inv in Hp
      as (sig & _ & [(_ & -> & _)|(_ & _ & _ & msg & Hlog & _)]); [reflexivity|].
    apply Prepare_log_fields in Hlog as (_ & _ & -> & _). reflexivity.
  - destruct Hs as (reply & Hm). left.
    apply Commit_inv in Hm as (sig & _ & Hm). destruct Hm; reflexivity.
  - left. rewrite Hs. reflexivity.
  - left. rewrite Hs. reflexivity.
  - destruct Hc as (k & _ & [->|(_ & -> & _)]); [left; reflexivity|].
    right. split; [reflexivity|eauto].
Qed.

(** Bookkeeping of the handlers in flight: from [Make] on, while
    [prepareLog] fits an [int], [executeSeqNum] is not negative and
    [executeSeqNum] plus the number of handlers that wait between their
    two critical sections is [len(prepareLog)].  So a replica never
    executes more slots than it has prepared entries. *)
Theorem frontier_accounting (replicas : nat) (i : Z) sk pks (n : Node) :
  reachable (boot replicas i sk pks) n →
  len (prepareLog (replica n)) ≤ int_max →
  0 ≤ executeSeqNum (replica n)
  ∧ executeSeqNum (replica n) + len (calls n) = len (prepareLog (replica n)).
Proof.
  induction 1 as [|n e n' _ IH Hs]; intros Hb.
  - unfold boot, Make, len. simpl. lia.
  - pose proof (step_section _ _ _ Hs) as Hsec.
    apply section_lengths in Hsec.
    assert (Hbn : len (prepareLog (replica n)) ≤ int_max).
    { unfold lengths_kept, lengths_both, lengths_prepare_only, len in *. lia. }
    clear Hsec. specialize (IH Hbn). destruct IH as [IH0 IH].
    pose proof (step_inv _ _ _ Hs) as Hi. apply step_calls in Hs.
    unfold len in *.
    destruct e as [request|prepareEntry|msg|c server reply|c server reply|c].
    + destruct Hs as (reply & o & Hr & Hc). rewrite Hc, length_app.
      apply Replicate_enter_inv in Hr
        as [(_ & -> & _ & ->)|(_ & sig & e & _ & Hlog & _ & _ & ->)];
        [simpl; lia|].
      apply Replicate_log_fields in Hlog as (_ & -> & _ & _ & -> & _).
      rewrite length_app. simpl. lia.
    + destruct Hs as (reply & o & Hp & Hc). rewrite Hc, length_app.
      apply Prepare_enter_inv in Hp
        as (sig & _ & [(_ & -> & _ & ->)|(_ & _ & _ & msg & Hlog & ->)]);
        [simpl; lia|].
      apply Prepare_log_fields in Hlog as (-> & _ & -> & _).
      rewrite length_app. simpl. lia.
    + destruct Hi as (reply & Hm). rewrite Hs.
      apply Commit_inv in Hm as (sig & _ & Hm). destruct Hm; simpl; lia.
    + destruct Hs as (k & j & _ & _ & ->). rewrite Hi, length_insert. lia.
    + destruct Hs as (k & j & _ & _ & ->). rewrite Hi, length_insert. lia.
    + destruct Hs as (k & Hk & [->|(-> & -> & _)]); [lia|].
      rewrite length_delete by eauto. apply lookup_lt_Some in Hk. simpl.
      rewrite int_add_small by (unfold int_min, int_max in *; lia). lia.
Qed.

(** A replica that is not the leader never waits in [Replicate], and
    its frontier stays inside [commitLog]: from [Make] on, while
    [commitLog] fits an [int], [0 <= executeSeqNum <= len(commitLog)]. *)
Theorem follower_frontier (replicas : nat) (i : Z) sk pks (n : Node) :
  i ≠ 1 →
  reachable (boot replicas i sk pks) n →
  len (commitLog (replica n)) ≤ int_max →
  0 ≤ executeSeqNum (replica n) ≤ len (commitLog (replica n))
  ∧ ∀ (c : nat) k, calls n !! c = Some k → ∃ msg reply, task k = InPrepare msg reply.
Proof.
  intros Hi Hr. rewrite <- Forall_lookup.
  pose proof (boot_config _ _ _ _ _ Hr) as Hcfg. revert Hcfg.
  induction Hr as [|n e n' Hr IH Hs]; intros Hcfg Hb.
  - unfold boot, Make, len. simpl. split; [lia|constructor].
  - pose proof (boot_config _ _ _ _ _ Hr) as (Hv & Hid & _).
    pose proof (step_section _ _ _ Hs) as Hsec.
    apply section_lengths in Hsec.
    assert (Hbn : len (commitLog (replica n)) ≤ int_max).
    { unfold lengths_kept, lengths_both, lengths_prepare_only, len in *. lia. }
    clear Hsec. specialize (IH (boot_config _ _ _ _ _ Hr) Hbn).
    destruct IH as [IH Hall].
    pose proof (step_inv _ _ _ Hs) as Hinv. apply step_calls in Hs.
    unfold len in *.
    destruct e as [request|prepareEntry|msg|c server reply|c server reply|c].
    + destruct Hs as (reply & o & Hrep & Hc). rewrite Hc.
      apply Replicate_enter_inv in Hrep
        as [(_ & -> & _ & ->)|(Heq & _)]; [|congruence].
      rewrite app_nil_r. auto.
    + destruct Hs as (reply & o & Hp & Hc). rewrite Hc.
      apply Prepare_enter_inv in Hp
        as (sig & _ & [(_ & -> & _ & ->)|(_ & _ & _ & msg & Hlog & ->)]);
        [rewrite app_nil_r; auto|].
      apply Prepare_log_fields in Hlog
        as (_ & _ & -> & _ & _ & _ & _ & _ & _ & ->).
      split.
      * destruct (_ <=? _); [rewrite length_app; simpl|]; lia.
      * apply Forall_app_2; [exact Hall|].
        apply Forall_singleton. simpl. eauto.
    + destruct Hinv as (reply & Hm). rewrite Hs.
      apply Commit_inv in Hm as (sig & _ & Hm).
      destruct Hm; simpl; [auto|auto|]. rewrite length_insert. auto.
    + destruct Hs as (k & j & Hk & _ & ->). rewrite Hinv. split; [exact IH|].
      apply Forall_insert; [exact Hall|].
      pose proof (Forall_lookup_1 _ _ _ _ Hall Hk) as (m & r & Ht).
      destruct j; simpl; eauto.
    + destruct Hs as (k & j & Hk & _ & ->). rewrite Hinv. split; [exact IH|].
      apply Forall_insert; [exact Hall|].
      pose proof (Forall_lookup_1 _ _ _ _ Hall Hk) as (m & r & Ht).
      destruct j; simpl; eauto.
    + destruct Hs as (k & Hk & [->|(-> & -> & Hguard)]); [auto|].
      pose proof (Forall_lookup_1 _ _ _ _ Hall Hk) as (m & r & Ht).
      rewrite Ht in Hguard. unfold len in Hguard. simpl.
      rewrite int_add_small by (unfold int_min, int_max in *; lia).
      split; [lia|]. apply Forall_delete. exact Hall.
Qed.

(** The completion channel is never asked for more room than it has.
    From [Make] on, a waiting handler has taken no more tokens than
    there are [issue...] tasks that have finished, tokens and tasks that
    are still alive together never exceed the number of other members,
    and on a replica that is a member of its own group the tokens never
    exceed the capacity [len(synchronousGroup) - 1] of [replyCh]. *)
Theorem tokens_within_capacity (replicas : nat) (i : Z) sk pks (n : Node)
    (c : nat) (k : call) :
  reachable (boot replicas i sk pks) n →
  calls n !! c = Some k →
  0 ≤ tokens k
  ∧ tokens k + Z.of_nat (size (pending k)) ≤ Z.of_nat (size (others (replica n)))
  ∧ (id (replica n) ∈ dom (synchronousGroup (replica n)) →
     tokens k ≤ map_len (synchronousGroup (replica n)) - 1).
Proof.
  intros Hr Hk.
  assert (Hall : Forall (fun k => 0 ≤ tokens k
            ∧ tokens k + Z.of_nat (size (pending k))
              ≤ Z.of_nat (size (others (replica n)))) (calls n)).
  { clear c k Hk. induction Hr as [|n e n' Hr IH Hs]; [constructor|].
    assert (Ho : others (replica n') = others (replica n)).
    { apply step_section, section_config in Hs as (Hid & _ & Hg & _).
      unfold others. rewrite Hid, Hg. reflexivity. }
    rewrite Ho. pose proof (step_inv _ _ _ Hs) as Hinv. apply step_calls in Hs.
    assert (Hsettle : ∀ k server j, server ∈ pending k →
      0 ≤ tokens k ∧ tokens k + Z.of_nat (size (pending k))
                     ≤ Z.of_nat (size (others (replica n))) →
      0 ≤ tokens (settle k server j)
      ∧ tokens (settle k server j) + Z.of_nat (size (pending (settle k server j)))
        ≤ Z.of_nat (size (others (replica n)))).
    { intros k server j Hin [H0 Hle].
      assert (Hsz : size (pending k ∖ {[server]}) = (size (pending k) - 1)%nat).
      { rewrite size_difference by (apply singleton_subseteq_l; exact Hin).
        rewrite size_singleton. reflexivity. }
      assert (Hpos : (0 < size (pending k))%nat).
      { destruct (size (pending k)) eqn:E; [|lia].
        apply size_empty_inv in E. rewrite (E server) in Hin.
        apply not_elem_of_empty in Hin. contradiction. }
      destruct j; simpl; try rewrite Hsz; lia. }
    destruct e as [request|prepareEntry|msg|c server reply|c server reply|c].
    - destruct Hs as (reply & o & _ & ->). apply Forall_app_2; [exact IH|].
      destruct o; [|constructor]. apply Forall_singleton. simpl.
      rewrite Ho. lia.
    - destruct Hs as (reply & o & _ & ->). apply Forall_app_2; [exact IH|].
      destruct o; [|constructor]. apply Forall_singleton. simpl.
      rewrite Ho. lia.
    - rewrite Hs. exact IH.
    - destruct Hs as (k & j & Hk & Hin & ->).
      apply Forall_insert; [exact IH|]. apply Hsettle; [exact Hin|].
      exact (Forall_lookup_1 _ _ _ _ IH Hk).
    - destruct Hs as (k & j & Hk & Hin & ->).
      apply Forall_insert; [exact IH|]. apply Hsettle; [exact Hin|].
      exact (Forall_lookup_1 _ _ _ _ IH Hk).
    - destruct Hs as (k & Hk & [->|(-> & _)]); [exact IH|].
      apply Forall_delete. exact IH. }
  pose proof (Forall_lookup_1 _ _ _ _ Hall Hk) as [H0 Hle].
  split; [exact H0|]. split; [exact Hle|].
  intros Hin. unfold others in Hle.
  rewrite size_difference in Hle by (apply singleton_subseteq_l; exact Hin).
  assert (Hpos : (0 < size (dom (synchronousGroup (replica n))))%nat).
  { destruct (size (dom (synchronousGroup (replica n)))) eqn:E; [|lia].
    apply size_empty_inv in E. rewrite (E (id (replica n))) in Hin.
    apply not_elem_of_empty in Hin. contradiction. }
  rewrite size_singleton in Hle. rewrite size_dom in Hle, Hpos.
  unfold map_len. lia.
Qed.

(** With the leader as the only member of the group, [Replicate] runs
    to its end without a single reply from the network: the handler
    logs the request, finds its token count already complete and
    executes the slot. *)
Theorem Replicate_alone (n : Node) (request : ClientRequest) sig :
  id (replica n) = view (replica n) →
  map_len (synchronousGroup (replica n)) = 1 →
  sign (replica n) (digest request) = Ok sig →
  ∃ n1 n2,
    step n (EvReplicate request) = Some (Ok n1)
    ∧ step n1 (EvResume (length (calls n))) = Some (Ok n2)
    ∧ calls n2 = calls n
    ∧ executeSeqNum (replica n2) = int_add (executeSeqNum (replica n)) 1
    ∧ length (prepareLog (replica n2)) = S (length (prepareLog (replica n)))
    ∧ length (commitLog (replica n2)) = S (length (commitLog (replica n))).
Proof.
  intros Hid Hg Hsig.
  destruct (Replicate_log (set_prepareSeqNum (replica n)
              (int_add (prepareSeqNum (replica n)) 1)) request (digest request) sig)
    as [xp1 e] eqn:Hlog.
  pose proof (Replicate_log_fields _ _ _ _ _ _ Hlog)
    as (_ & Hl & Hc & _ & He & Hgr & _).
  simpl in Hl, Hc, He, Hgr.
  assert (Hent : Replicate_enter (replica n) request (mkReplicateReply false false)
                 = Ok (xp1, mkReplicateReply true false, Some e)).
  { unfold Replicate_enter. rewrite bool_decide_eq_true_2 by exact Hid.
    change (sign (set_prepareSeqNum (replica n)
                    (int_add (prepareSeqNum (replica n)) 1)) (digest request))
      with (sign (replica n) (digest request)).
    rewrite Hsig. cbn [bind]. rewrite Hlog, Hgr, Hg. reflexivity. }
  eexists _, _. split; [|split].
  - unfold step. rewrite Hent. cbn [bind]. reflexivity.
  - unfold step. cbn [calls replica].
    rewrite lookup_app_r by reflexivity. rewrite Nat.sub_diag. cbn [lookup list_lookup].
    cbn [spawn tokens task]. rewrite Hgr, Hg. cbn.
    reflexivity.
  - cbn [calls replica]. split; [|split; [|split]].
    + rewrite <- (Nat.add_0_r (length (calls n))).
      change (calls n ++ [spawn xp1 (InReplicate e (mkReplicateReply true false))])
        with (calls n ++ spawn xp1 (InReplicate e (mkReplicateReply true false)) :: []).
      rewrite Nat.add_0_r, delete_middle, app_nil_r. reflexivity.
    + simpl. rewrite He. reflexivity.
    + simpl. rewrite Hl, length_app. simpl. lia.
    + simpl. rewrite Hc, length_app. simpl. lia.
Qed.


End FrontierFacts.

(** ** Concrete runs of the further properties *)

Lemma Replicate_empty_group_witness :
  ¬ returns (@Replicate_enter Toy.crypto (@Make Toy.crypto 1 1 x01 Toy.keys)
               Toy.reqA (mkReplicateReply false false)).
Proof.
  apply (@Replicate_empty_group Toy.crypto 1 x01 Toy.keys Toy.reqA
           (mkReplicateReply false false) (le_n 1)).
Defined.

Lemma configuration_fixed_witness :
  view (replica (after Toy.leader Toy.pipelined)) = 1
  ∧ getState (replica (after Toy.leader Toy.pipelined)) = (1, true).
Proof.
  pose proof (@configuration_fixed Toy.crypto 3 1 x01 Toy.keys
                (after Toy.leader Toy.pipelined)
                (run_reachable _ _ _ Toy_pipelined_runs))
    as (Hv & _ & _ & _ & _ & Hg).
  split; [exact Hv|exact Hg].
Defined.

Lemma Commit_reply_counts_witness :
  issueCommit (replica Toy.leader) 2 (Toy.commit_of Toy.reqA 1 3 x03)
    (CommitReply.mk [x61] [x02; x61] true) = Ok Token.
Proof.
  apply (@Commit_reply_counts Toy.crypto (replica Toy.leader)
           (replica Toy.follower_prepared) (Toy.commit_of Toy.reqA 1 3 x03)
           (replica Toy.follower_committed)
           (CommitReply.mk [x61] [x02; x61] true)
           Toy_sound ltac:(vm_compute; reflexivity)
           ltac:(vm_compute; reflexivity)).
Defined.

Lemma Prepare_reply_counts_witness :
  issuePrepare (replica Toy.leader) 2 (Toy.prepare_of Toy.reqA 5)
    (PrepareReply.mk [x61] [x02; x61] false) = Ok Reissue.
Proof.
  apply (proj1 (@Prepare_reply_counts Toy.crypto (replica Toy.leader)
                  (replica Toy.follower) (Toy.prepare_of Toy.reqA 5)
                  (replica Toy.follower)
                  (PrepareReply.mk [x61] [x02; x61] false) None
                  Toy_sound ltac:(vm_compute; reflexivity)
                  ltac:(vm_compute; reflexivity))
               eq_refl); reflexivity.
Defined.

Lemma leader_entry_admitted_witness :
  Prepare_admits (replica Toy.follower) (Toy.prepare_of Toy.reqA 1)
    (@digest Toy.crypto Toy.reqA) = Ok true.
Proof.
  apply (@leader_entry_admitted Toy.crypto (replica Toy.leader)
           (replica Toy.follower) Toy.reqA (mkReplicateReply false false)
           (replica Toy.leader_prepared) (mkReplicateReply true false)
           (Toy.prepare_of Toy.reqA 1)
           Toy_sound ltac:(vm_compute; reflexivity)
           ltac:(vm_compute; reflexivity)).
Defined.

Lemma Prepare_duplicate_witness :
  Prepare_enter (replica Toy.follower_prepared) (Toy.prepare_of Toy.reqA 1)
    PrepareReply.zero
  = Ok (replica Toy.follower_prepared,
        PrepareReply.mk [x61] [x02; x61] false, None).
Proof.
  apply (@Prepare_duplicate Toy.crypto (replica Toy.follower)
           (Toy.prepare_of Toy.reqA 1) PrepareReply.zero
           (replica Toy.follower_prepared)
           (PrepareReply.mk [x61] [x02; x61] false)
           (Toy.commit_of Toy.reqA 1 2 x02)
           ltac:(vm_compute; reflexivity)).
Defined.

Lemma Commit_reads_three_fields_witness :
  ∃ xp'', Commit (replica Toy.follower_prepared) Toy.disguised_commit
            CommitReply.zero
          = Ok (xp'', CommitReply.mk [x61] [x02; x61] true).
Proof.
  apply (@Commit_reads_three_fields Toy.crypto (replica Toy.follower_prepared)
           (Toy.commit_of Toy.reqA 1 3 x03) Toy.disguised_commit
           CommitReply.zero (replica Toy.follower_committed)
           (CommitReply.mk [x61] [x02; x61] true)
           eq_refl eq_refl eq_refl ltac:(vm_compute; reflexivity)).
Defined.

Lemma Commit_commute_witness :
  ∃ xp2,
    Commit (replica Toy.follower_prepared) (Toy.commit_of Toy.reqA 1 1 x01)
      CommitReply.zero = Ok (xp2, CommitReply.mk [x61] [x02; x61] true)
    ∧ Commit xp2 (Toy.commit_of Toy.reqA 1 3 x03) CommitReply.zero
      = Ok (replica Toy.follower_committed_twice,
            CommitReply.mk [x61] [x02; x61] true).
Proof.
  apply (@Commit_commute Toy.crypto (replica Toy.follower_prepared)
           (Toy.commit_of Toy.reqA 1 3 x03) (Toy.commit_of Toy.reqA 1 1 x01)
           (replica Toy.follower_committed)
           (CommitReply.mk [x61] [x02; x61] true)
           (replica Toy.follower_committed_twice)
           (CommitReply.mk [x61] [x02; x61] true)
           ltac:(vm_compute; discriminate)
           ltac:(vm_compute; reflexivity)
           ltac:(vm_compute; reflexivity)).
Defined.

Lemma Commit_overwrite_witness :
  Commit (replica Toy.follower_prepared) (Toy.commit_of Toy.reqB 2 3 x03)
    CommitReply.zero
  = Ok (replica Toy.follower_overwritten, CommitReply.mk [x62] [x02; x62] true).
Proof.
  apply (@Commit_overwrite Toy.crypto (replica Toy.follower_prepared)
           (Toy.commit_of Toy.reqA 1 3 x03) (Toy.commit_of Toy.reqB 2 3 x03)
           (replica Toy.follower_committed)
           (CommitReply.mk [x61] [x02; x61] true)
           (replica Toy.follower_overwritten)
           (CommitReply.mk [x62] [x02; x62] true)
           eq_refl ltac:(vm_compute; reflexivity) eq_refl
           ltac:(vm_compute; reflexivity) eq_refl).
Defined.

Lemma logs_append_only_witness :
  prepareLog (replica Toy.leader_prepared)
    `prefix_of` prepareLog (replica (after Toy.leader_prepared (drop 1 Toy.pipelined))).
Proof.
  apply (@logs_append_only Toy.crypto Toy.leader_prepared
           (after Toy.leader_prepared (drop 1 Toy.pipelined))
           (run_reachable Toy.leader_prepared (drop 1 Toy.pipelined)
              (after Toy.leader_prepared (drop 1 Toy.pipelined))
              ltac:(vm_compute; reflexivity))).
Defined.

Lemma committed_requests_prepared_witness :
  (CommitLogEntry.Request <$> commitLog (replica (after Toy.leader Toy.pipelined)))
    `sublist_of`
  (PrepareLogEntry.Request <$> prepareLog (replica (after Toy.leader Toy.pipelined))).
Proof.
  apply (@committed_requests_prepared Toy.crypto 3 1 x01 Toy.keys
           (after Toy.leader Toy.pipelined)
           (run_reachable _ _ _ Toy_pipelined_runs)).
Defined.

Lemma frontier_moves_on_resume_witness :
  executeSeqNum (replica Toy.leader_prepared) = executeSeqNum (replica Toy.leader)
  ∨ (executeSeqNum (replica Toy.leader_prepared)
     = int_add (executeSeqNum (replica Toy.leader)) 1
     ∧ ∃ c, EvReplicate Toy.reqA = EvResume c).
Proof.
  apply (@frontier_moves_on_resume Toy.crypto Toy.leader (EvReplicate Toy.reqA)
           Toy.leader_prepared ltac:(vm_compute; reflexivity)).
Defined.

Lemma frontier_accounting_witness :
  0 ≤ executeSeqNum (replica Toy.leader_acked)
  ∧ executeSeqNum (replica Toy.leader_acked) + len (calls Toy.leader_acked)
    = len (prepareLog (replica Toy.leader_acked)).
Proof.
  assert (Hrun : run Toy.leader (take 3 Toy.pipelined) = Some (Ok Toy.leader_acked))
    by (vm_compute; reflexivity).
  assert (Hb : len (prepareLog (replica Toy.leader_acked)) ≤ int_max)
    by (vm_compute; discriminate).
  apply (@frontier_accounting Toy.crypto 3 1 x01 Toy.keys Toy.leader_acked
           (run_reachable Toy.leader (take 3 Toy.pipelined) Toy.leader_acked Hrun)
           Hb).
Defined.

Lemma follower_frontier_witness :
  0 ≤ executeSeqNum (replica Toy.follower_committed)
      ≤ len (commitLog (replica Toy.follower_committed)).
Proof.
  assert (Hrun : run Toy.follower
                   [EvPrepare (Toy.prepare_of Toy.reqA 1);
                    EvCommit (Toy.commit_of Toy.reqA 1 3 x03)]
                 = Some (Ok Toy.follower_committed))
    by (vm_compute; reflexivity).
  assert (Hb : len (commitLog (replica Toy.follower_committed)) ≤ int_max)
    by (vm_compute; discriminate).
  assert (Hne : (2 : Z) ≠ 1) by discriminate.
  apply (@follower_frontier Toy.crypto 4 2 x02 Toy.keys Toy.follower_committed
           Hne (run_reachable Toy.follower _ Toy.follower_committed Hrun) Hb).
Defined.

Lemma tokens_within_capacity_witness :
  ∃ k, calls Toy.leader_acked !! 0%nat = Some k
       ∧ tokens k ≤ map_len (synchronousGroup (replica Toy.leader_acked)) - 1.
Proof.
  assert (Hrun : run Toy.leader (take 3 Toy.pipelined) = Some (Ok Toy.leader_acked))
    by (vm_compute; reflexivity).
  destruct (calls Toy.leader_acked !! 0%nat) as [k|] eqn:Hk;
    [|vm_compute in Hk; discriminate].
  exists k. split; [reflexivity|].
  apply (@tokens_within_capacity Toy.crypto 3 1 x01 Toy.keys Toy.leader_acked
           0%nat k
           (run_reachable Toy.leader (take 3 Toy.pipelined) Toy.leader_acked Hrun)
           Hk).
  apply elem_of_dom. vm_compute. eauto.
Defined.

Lemma Replicate_alone_witness :
  ∃ n1 n2,
    step Toy.lone_leader (EvReplicate Toy.reqA) = Some (Ok n1)
    ∧ step n1 (EvResume 0) = Some (Ok n2)
    ∧ executeSeqNum (replica n2) = 1.
Proof.
  destruct (@Replicate_alone Toy.crypto Toy.lone_leader Toy.reqA [x01; x61]
              eq_refl ltac:(vm_compute; reflexivity) eq_refl)
    as (n1 & n2 & H1 & H2 & _ & He & _).
  exists n1, n2. split; [exact H1|]. split; [exact H2|]. exact He.
Defined.


(** C2 as it is stated fails.  The follower of a group of two holds the
    entry of [reqA] and its handler for it is waiting; the PREPARE of
    [reqB] meets all three conditions and is accepted, but no slot is
    made for it, because the frontier is still on the slot of [reqA].
    Both handlers get their acknowledgement, the one for [reqA] passes
    the barrier and moves the frontier, and the only handler left, the
    one for [reqB], finds no slot at [executeSeqNum]: the process dies
    and [reqB] is never answered.  (Were the handler for [reqB] to take
    the mutex first, it would be answered on the strength of the slot
    of [reqA], and the handler for [reqA] would die instead.) *)
Lemma accepted_Prepare_dies_unanswered :
  (PrepareSeqNum (PrepareLogEntry.Msg0 (Toy.prepare_of Toy.reqB 2))
   = int_add (prepareSeqNum (replica Toy.pair_follower_prepared)) 1
   ∧ MsgDigest (PrepareLogEntry.Msg0 (Toy.prepare_of Toy.reqB 2))
     = @digest Toy.crypto (PrepareLogEntry.Request (Toy.prepare_of Toy.reqB 2))
   ∧ verify (replica Toy.pair_follower_prepared)
       (ServerId (PrepareLogEntry.Msg0 (Toy.prepare_of Toy.reqB 2)))
       (@digest Toy.crypto (PrepareLogEntry.Request (Toy.prepare_of Toy.reqB 2)))
       (Signature (PrepareLogEntry.Msg0 (Toy.prepare_of Toy.reqB 2))) = Ok true)
  ∧ ∃ n k reply,
      run Toy.pair_follower_prepared Toy.second_in_flight = Some (Ok n)
      ∧ prepareLog (replica n)
        = [Toy.prepare_of Toy.reqA 1; Toy.prepare_of Toy.reqB 2]
      ∧ calls n = [k]
      ∧ task k = InPrepare (Toy.commit_of Toy.reqB 2 2 x02) reply
      ∧ PrepareReply.Success reply = false
      ∧ step n (EvResume 0) = Some (Abort PanicIndexOutOfRange).
Proof.
  split; [repeat split; vm_compute; reflexivity|].
  exists (after Toy.pair_follower_prepared Toy.second_in_flight).
  destruct (calls (after Toy.pair_follower_prepared Toy.second_in_flight))
    as [|k [|k' l]] eqn:Hc; try (vm_compute in Hc; discriminate).
  destruct (task k) as [pe r|m reply] eqn:Ht.
  - exfalso. vm_compute in Hc. injection Hc as <-. vm_compute in Ht. discriminate.
  - exists k, reply. split; [vm_compute; reflexivity|].
    split; [vm_compute; reflexivity|]. split; [reflexivity|].
    vm_compute in Hc. injection Hc as <-.
    vm_compute in Ht. injection Ht as <- <-.
    repeat split; vm_compute; reflexivity.
Qed.
